(** * pymatgen.alchemy.filters

    A shallow embedding of the structure filters of
    [pymatgen/alchemy/filters.py] and the properties of their [test]
    methods.

    Conventions of the embedding.
    - Python numbers that the filters only compare (distances, thresholds,
      charges, occupancies) are the rationals they denote: every finite float
      and every int is a rational, and [<], [==] and [max] on them agree with
      the order of [Q].  The filters perform no arithmetic on them.
    - A Python [dict] is a [gmap], a Python [set] a [gset]; the result of a
      loop that only ever returns early does not depend on the iteration
      order, which is taken to be the one of [elements] / [map_to_list].
    - A call that may raise returns [exn + A] ([inl] is the raised
      exception).
    - The classes the module imports (species resolver, structure, site,
      structure matcher, symmetry finder) are parameters of the development;
      a small concrete universe, [Fixture], instantiates them. *)

From Stdlib Require Import QArith.
From stdpp Require Import gmap strings list fin_maps.

Set Default Proof Using "Type".

(** ** Python values shared by all filters *)

Inductive exn : Type :=
  | KeyError (key : string)
  | TypeError (msg : string)
  | ValueError (msg : string)
  | CollaboratorError (code : nat).

Abbreviation result A := (exn + A)%type.

Definition is_raise {A} (r : result A) : bool :=
  match r with inl _ => true | inr _ => false end.

(** [map f l] of Python 2: eager, the first exception wins. *)
Fixpoint py_map {A B} (f : A -> result B) (l : list A) : result (list B) :=
  match l with
  | [] => inr []
  | x :: l' =>
      match f x with
      | inl e => inl e
      | inr y =>
          match py_map f l' with
          | inl e => inl e
          | inr ys => inr (y :: ys)
          end
      end
  end.

(** Comparisons of numbers. *)
Definition num_lt (x y : Q) : bool := negb (Qle_bool y x).
Definition num_eq (x y : Q) : bool := Qeq_bool x y.

(** [max(x :: l)]: the first largest element is kept. *)
Fixpoint py_max_from (cur : Q) (l : list Q) : Q :=
  match l with
  | [] => cur
  | x :: l' => py_max_from (if num_lt cur x then x else cur) l'
  end.

#[global] Instance Q_inhabited : Inhabited Q := populate 0%Q.

#[global] Instance result_ret : MRet (sum exn) := fun A x => inr x.
#[global] Instance result_bind : MBind (sum exn) := fun A B f r =>
  match r with inl e => inl e | inr x => f x end.

(** The JSON-like values of the [to_dict] form. *)
#[local] Set Warnings "-register-all".
Inductive value : Type :=
  | VNone
  | VBool (b : bool)
  | VNum (q : Q)
  | VStr (s : string)
  | VList (l : list value)
  | VDict (d : gmap string value).
#[local] Set Warnings "register-all".

(** The dict built from [items] in order: a later item overwrites an earlier
    one with the same key. *)
Definition py_dict {V} (items : list (string * V)) : gmap string V :=
  foldl (fun m kv => <[fst kv := snd kv]> m) ∅ items.

(** [d[k]] *)
Definition getitem (d : gmap string value) (k : string) : result value :=
  match d !! k with
  | Some v => inr v
  | None => inl (KeyError k)
  end.

Definition __version__ : string := "1.0".
Definition __module__ : string := "pymatgen.alchemy.filters".

(** ** A concrete universe of collaborators *)

Module Fixture.

(** A species is an element (atomic number) with an optional oxidation
    state: [Na] is [(11, None)], [Na+] is [(11, Some 1)]. *)
Definition Specie : Type := nat * option Z.

#[global] Instance Specie_eq_dec : EqDecision Specie :=
  _ : EqDecision (nat * option Z).
#[global] Instance Specie_countable : Countable Specie :=
  _ : Countable (nat * option Z).

Definition Na : Specie := (11, None).
Definition Na_plus : Specie := (11, Some 1%Z).
Definition Cl : Specie := (17, None).
Definition Cl_minus : Specie := (17, Some (-1)%Z).
Definition K : Specie := (19, None).

Definition specie_Z (sp : Specie) : nat := fst sp.

Definition smart_element_or_specie (s : string) : result Specie :=
  if decide (s = "Na") then inr Na
  else if decide (s = "Na+") then inr Na_plus
  else if decide (s = "Cl") then inr Cl
  else if decide (s = "Cl-") then inr Cl_minus
  else if decide (s = "K") then inr K
  else inl (ValueError "Can't parse Element or String from str").

Definition specie_str (sp : Specie) : string :=
  if decide (sp = Na) then "Na"
  else if decide (sp = Na_plus) then "Na+"
  else if decide (sp = Cl) then "Cl"
  else if decide (sp = Cl_minus) then "Cl-"
  else if decide (sp = K) then "K"
  else "?".

(** A site: a label and its species with their occupancies. *)
Definition Site : Type := nat * list (Specie * Q).

Definition species_and_occu (site : Site) : gmap Specie Q :=
  list_to_map (snd site).

(** A structure: its sites, the table of periodic neighbours with their
    distances, the net charge, and what the matcher and the symmetry
    finder see of it (reduced formula, space group, geometry class). *)
Record Structure : Type := {
  sites : list Site;
  neighbors : list (nat * Site * Q);
  charge : Q;
  formula : nat;
  spacegroup : nat;
  geometry : nat;
  well_formed : bool
}.

Definition composition_elements (st : Structure) : list Specie :=
  remove_dups (concat (map (fun site => map fst (snd site)) (sites st))).

Definition get_neighbors (st : Structure) (site : Site) (r : Q)
  : list (Site * Q) :=
  omap (fun '(i, n, d) =>
          if decide (i = fst site) then
            if Qle_bool d r then Some (n, d) else None
          else None)
       (neighbors st).

(** The matcher: structures fit when they have the same formula and the
    same geometry class up to the matcher's tolerance. *)
Definition StructureMatcher : Type := unit.
Definition HashKey : Type := nat.

Definition get_structure_hash (_ : StructureMatcher) (st : Structure)
  : result HashKey :=
  if well_formed st then inr (formula st) else inl (CollaboratorError 1).

Definition fit (_ : StructureMatcher) (s1 s2 : Structure) : result bool :=
  if well_formed s1 && well_formed s2 then
    inr (bool_decide (formula s1 = formula s2)
         && bool_decide (geometry s1 = geometry s2))
  else inl (CollaboratorError 2).

Definition get_spacegroup_number (st : Structure) (symprec : Q)
  : result nat :=
  if well_formed st then inr (spacegroup st) else inl (CollaboratorError 3).

Definition sm_to_dict (_ : StructureMatcher) : value :=
  VDict {["@class" := VStr "StructureMatcher"]}.

Definition sm_from_dict (_ : gmap string value) : result StructureMatcher :=
  inr tt.

Definition default_structure_matcher : StructureMatcher := tt.

(** Two [Na+] sites, each the only periodic neighbour of the other at
    distance [d], each with occupancy [occu]. *)
Definition Na_site (label : nat) (occu : Q) : Site := (label, [(Na_plus, occu)]).

Definition two_Na (d occu : Q) : Structure :=
  {| sites := [Na_site 0 occu; Na_site 1 occu];
     neighbors := [(0, Na_site 1 occu, d); (1, Na_site 0 occu, d)];
     charge := 2;
     formula := 1;
     spacegroup := 225;
     geometry := 1;
     well_formed := true |}.

(** Four structures of one formula: [A]; a copy of [A] further apart, which
    the matcher fits onto [A] and which has the space group of [A]; a
    distorted copy, which the matcher still fits onto [A] within its
    tolerance but whose detected space group differs; and [C], which does
    not fit [A]. *)
Definition A : Structure := two_Na 3 1.
Definition A_copy : Structure := two_Na 4 1.

Definition A_distorted : Structure :=
  {| sites := sites A; neighbors := neighbors A; charge := 2;
     formula := 1; spacegroup := 221; geometry := 1; well_formed := true |}.

Definition C : Structure :=
  {| sites := sites A; neighbors := neighbors A; charge := 2;
     formula := 1; spacegroup := 225; geometry := 2; well_formed := true |}.

(** A structure the matcher cannot process. *)
Definition malformed : Structure :=
  {| sites := []; neighbors := []; charge := 0;
     formula := 1; spacegroup := 1; geometry := 1; well_formed := false |}.

(** A neutral structure and one with a net charge of 0.0000001. *)
Definition neutral : Structure :=
  {| sites := []; neighbors := []; charge := 0;
     formula := 2; spacegroup := 1; geometry := 1; well_formed := true |}.

Definition barely_charged : Structure :=
  {| sites := []; neighbors := []; charge := 1 # 10000000;
     formula := 2; spacegroup := 1; geometry := 1; well_formed := true |}.

(** The recommended precision of the symmetry finder, 1e-5. *)
Definition symprec : Q := 1 # 100000.

End Fixture.

(** ** The filters *)

Section Filters.

Context {Specie : Type} `{Countable Specie}.

(** [pymatgen.core.periodic_table]: the species resolver, [str(sp)] and
    [sp.Z]. *)
Variable smart_element_or_specie : string -> result Specie.
Variable specie_str : Specie -> string.
Variable specie_Z : Specie -> nat.

(** [pymatgen.core.structure]: a structure iterates over its sites. *)
Context {Site Structure : Type}.
Variable species_and_occu : Site -> gmap Specie Q.
Variable sites : Structure -> list Site.
Variable composition_elements : Structure -> list Specie.
Variable charge : Structure -> Q.
Variable get_neighbors : Structure -> Site -> Q -> list (Site * Q).

(** *** ContainsSpecieFilter *)

Record ContainsSpecieFilter : Type := {
  _species : list Specie;
  _strict : bool;
  _AND : bool;
  _exclude : bool
}.

Definition ContainsSpecieFilter_init (species : list string)
    (strict_compare AND exclude : bool) : result ContainsSpecieFilter :=
  match py_map smart_element_or_specie species with
  | inl e => inl e
  | inr sps =>
      inr {| _species := sps; _strict := strict_compare;
             _AND := AND; _exclude := exclude |}
  end.

(** The [if]/[elif]/[else] of [test], on sets of either kind of key. *)
Definition csf_decide `{Countable Key} (AND exclude : bool)
    (filter_set structure_set : gset Key) : bool :=
  if AND && bool_decide (filter_set ⊆ structure_set) then negb exclude
  else if negb AND && negb (bool_decide (filter_set ∩ structure_set = ∅))
  then negb exclude
  else exclude.

Definition ContainsSpecieFilter_test (self : ContainsSpecieFilter)
    (structure : Structure) : bool :=
  if negb (_strict self) then
    let filter_set : gset nat :=
      list_to_set (map specie_Z (_species self)) in
    let structure_set : gset nat :=
      list_to_set (map specie_Z (composition_elements structure)) in
    csf_decide (_AND self) (_exclude self) filter_set structure_set
  else
    let filter_set : gset Specie := list_to_set (_species self) in
    let structure_set : gset Specie :=
      list_to_set (composition_elements structure) in
    csf_decide (_AND self) (_exclude self) filter_set structure_set.

Definition ContainsSpecieFilter_to_dict (self : ContainsSpecieFilter)
  : value :=
  VDict (list_to_map
    [("version", VStr __version__);
     ("@module", VStr __module__);
     ("@class", VStr "ContainsSpecieFilter");
     ("init_args",
      VDict (list_to_map
        [("species",
          VList (map (fun sp => VStr (specie_str sp)) (_species self)));
         ("strict_compare", VBool (_strict self));
         ("AND", VBool (_AND self));
         ("exclude", VBool (_exclude self))]))]).

(** *** SpecieProximityFilter *)

Record SpecieProximityFilter : Type := {
  specie_and_min_dist : gmap Specie Q
}.

(** The dict comprehension of [__init__], over the items of the argument
    in iteration order: a later item with the same species overwrites an
    earlier one, the first unparseable key raises. *)
Fixpoint spf_comprehension (items : list (string * Q))
    (acc : gmap Specie Q) : result (gmap Specie Q) :=
  match items with
  | [] => inr acc
  | (k, v) :: items' =>
      match smart_element_or_specie k with
      | inl e => inl e
      | inr sp => spf_comprehension items' (<[sp := v]> acc)
      end
  end.

Definition SpecieProximityFilter_init
    (specie_and_min_dist_dict : gmap string Q)
  : result SpecieProximityFilter :=
  match spf_comprehension (map_to_list specie_and_min_dist_dict) ∅ with
  | inl e => inl e
  | inr m => inr {| specie_and_min_dist := m |}
  end.

(** The innermost loop, [for (nnsite, dist) in nn]: [true] when it reaches
    [return False]. *)
Definition spf_too_close (self : SpecieProximityFilter) (sp : Specie)
    (nn : list (Site * Q)) : bool :=
  existsb (fun '(nnsite, dist) =>
             bool_decide (sp ∈ dom (species_and_occu nnsite))
             && num_lt dist (specie_and_min_dist self !!! sp))
          nn.

(** The body of [for site in structure]: [true] when it reaches
    [return False]. *)
Definition spf_site (self : SpecieProximityFilter) (structure : Structure)
    (all_species : gset Specie) (site : Site) : bool :=
  let species : gset Specie := dom (species_and_occu site) in
  let sp_to_test := species ∩ all_species in
  match elements sp_to_test with
  | [] => false
  | sp0 :: sps =>
      let max_r :=
        py_max_from (specie_and_min_dist self !!! sp0)
                    (map (fun sp => specie_and_min_dist self !!! sp) sps) in
      let nn := get_neighbors structure site max_r in
      existsb (fun sp => spf_too_close self sp nn) (sp0 :: sps)
  end.

Definition SpecieProximityFilter_test (self : SpecieProximityFilter)
    (structure : Structure) : bool :=
  let all_species : gset Specie := dom (specie_and_min_dist self) in
  negb (existsb (spf_site self structure all_species) (sites structure)).

Definition SpecieProximityFilter_to_dict (self : SpecieProximityFilter)
  : value :=
  VDict (list_to_map
    [("version", VStr __version__);
     ("@module", VStr __module__);
     ("@class", VStr "SpecieProximityFilter");
     ("init_args",
      VDict (list_to_map
        [("specie_and_min_dist_dict",
          VDict (py_dict
            (map (fun '(sp, v) => (specie_str sp, VNum v))
                 (map_to_list (specie_and_min_dist self)))))]))]).

(** *** RemoveDuplicatesFilter *)

(** [pymatgen.analysis.structure_matcher] and [pymatgen.symmetry.finder].
    Each of the three collaborators may raise. *)
Context {StructureMatcher HashKey : Type} `{EqDecision HashKey}.
Variable get_structure_hash : StructureMatcher -> Structure -> result HashKey.
Variable fit : StructureMatcher -> Structure -> Structure -> result bool.
Variable get_spacegroup_number : Structure -> Q -> result nat.
Variable sm_to_dict : StructureMatcher -> value.
Variable sm_from_dict : gmap string value -> result StructureMatcher.
Variable default_structure_matcher : StructureMatcher.

Record RemoveDuplicatesFilter : Type := {
  _symprec : option Q;
  _structure_list : list Structure;
  _sm : StructureMatcher
}.

(** [structure_matcher] is either a dict or a matcher object. *)
Definition RemoveDuplicatesFilter_init
    (structure_matcher : gmap string value + StructureMatcher)
    (symprec : option Q) : result RemoveDuplicatesFilter :=
  match structure_matcher with
  | inl d =>
      sm ← sm_from_dict d;
      mret {| _symprec := symprec; _structure_list := []; _sm := sm |}
  | inr sm =>
      mret {| _symprec := symprec; _structure_list := []; _sm := sm |}
  end.

(** The calls [test] makes to its collaborators are logged, latest
    first. *)
Inductive call : Type :=
  | Call_get_structure_hash (s : Structure)
  | Call_get_spacegroup_number (s : Structure)
  | Call_fit (s1 s2 : Structure).

(** What a call of [test] can change: the filter object and the log.  An
    exception leaves the state as it is where it is raised. *)
Record world : Type := {
  this : RemoveDuplicatesFilter;
  calls : list call
}.

Definition M (A : Type) : Type := world -> result A * world.

#[global] Instance M_ret : MRet M := fun A x w => (inr x, w).
#[global] Instance M_bind : MBind M := fun A B f m w =>
  match m w with
  | (inl e, w') => (inl e, w')
  | (inr x, w') => f x w'
  end.

Definition invoke {A} (c : call) (r : result A) : M A :=
  fun w => (r, {| this := this w; calls := c :: calls w |}).

Definition read_self : M RemoveDuplicatesFilter :=
  fun w => (inr (this w), w).

(** [self._structure_list.append(structure)] *)
Definition append (structure : Structure) : M unit :=
  fun w =>
    (inr tt,
     {| this := {| _symprec := _symprec (this w);
                   _structure_list := _structure_list (this w) ++ [structure];
                   _sm := _sm (this w) |};
        calls := calls w |}).

Definition call_hash (sm : StructureMatcher) (s : Structure) : M HashKey :=
  invoke (Call_get_structure_hash s) (get_structure_hash sm s).

Definition call_fit (sm : StructureMatcher) (s1 s2 : Structure) : M bool :=
  invoke (Call_fit s1 s2) (fit sm s1 s2).

Definition get_sg (symprec : Q) (s : Structure) : M nat :=
  invoke (Call_get_spacegroup_number s) (get_spacegroup_number s symprec).

(** [for s in self._structure_list]: [true] when the loop reaches
    [return False]. *)
Fixpoint rdf_loop (self : RemoveDuplicatesFilter) (structure : Structure)
    (l : list Structure) : M bool :=
  match l with
  | [] => mret false
  | s :: l' =>
      h1 ← call_hash (_sm self) structure;
      h2 ← call_hash (_sm self) s;
      if bool_decide (h1 = h2) then
        same_sg ← match _symprec self with
                  | None => mret true
                  | Some symprec =>
                      g1 ← get_sg symprec s;
                      g2 ← get_sg symprec structure;
                      mret (bool_decide (g1 = g2))
                  end;
        if same_sg : bool then
          fits ← call_fit (_sm self) s structure;
          if fits : bool then mret true
          else rdf_loop self structure l'
        else rdf_loop self structure l'
      else rdf_loop self structure l'
  end.

Definition RemoveDuplicatesFilter_test (structure : Structure) : M bool :=
  self ← read_self;
  match _structure_list self with
  | [] => append structure;; mret true
  | _ :: _ =>
      dup ← rdf_loop self structure (_structure_list self);
      if dup : bool then mret false
      else append structure;; mret true
  end.

Definition RemoveDuplicatesFilter_to_dict (self : RemoveDuplicatesFilter)
  : value :=
  VDict (list_to_map
    [("version", VStr __version__);
     ("@module", VStr __module__);
     ("@class", VStr "RemoveDuplicatesFilter");
     ("init_args",
      VDict (list_to_map
        [("structure_matcher", sm_to_dict (_sm self))]))]).

(** *** ChargeBalanceFilter *)

Definition ChargeBalanceFilter_test (structure : Structure) : bool :=
  if num_eq (charge structure) 0 then true else false.

Definition ChargeBalanceFilter_to_dict : value :=
  VDict (list_to_map
    [("@module", VStr __module__);
     ("@class", VStr "ChargeBalanceFilter")]).

(** *** AbstractStructureFilter *)

(** The concrete subclasses, as one type with the [test] of each. *)
Inductive Filter : Type :=
  | AContainsSpecieFilter (f : ContainsSpecieFilter)
  | ASpecieProximityFilter (f : SpecieProximityFilter)
  | ARemoveDuplicatesFilter (f : RemoveDuplicatesFilter)
  | AChargeBalanceFilter.

(** [f.test(structure)]: the outcome and the filter object afterwards. *)
Definition test (f : Filter) (structure : Structure)
  : result bool * Filter :=
  match f with
  | AContainsSpecieFilter c =>
      (inr (ContainsSpecieFilter_test c structure), f)
  | ASpecieProximityFilter p =>
      (inr (SpecieProximityFilter_test p structure), f)
  | ARemoveDuplicatesFilter r =>
      let '(res, w) :=
        RemoveDuplicatesFilter_test structure {| this := r; calls := [] |} in
      (res, ARemoveDuplicatesFilter (this w))
  | AChargeBalanceFilter =>
      (inr (ChargeBalanceFilter_test structure), f)
  end.

(** [[f.test(s) for s in l]], where a caller that catches an exception
    goes on with the next structure. *)
Fixpoint test_all (f : Filter) (l : list Structure)
  : list (result bool) * Filter :=
  match l with
  | [] => ([], f)
  | s :: l' =>
      let '(r, f') := test f s in
      let '(rs, f'') := test_all f' l' in
      (r :: rs, f'')
  end.

Definition to_dict (f : Filter) : value :=
  match f with
  | AContainsSpecieFilter c => ContainsSpecieFilter_to_dict c
  | ASpecieProximityFilter p => SpecieProximityFilter_to_dict p
  | ARemoveDuplicatesFilter r => RemoveDuplicatesFilter_to_dict r
  | AChargeBalanceFilter => ChargeBalanceFilter_to_dict
  end.

(** Binding of the keyword arguments [**d['init_args']], on arguments of
    the types the constructors document and [to_dict] writes: [species] a
    list of strings, the minimum distances numbers, [structure_matcher] a
    dict, [symprec] [None] or a number.  Flags are taken by their truth
    value.  The source checks none of these types and stores any other
    argument as given (a string for [species] is iterated by character);
    the typed filters below cannot hold such a value, and the model
    answers it with a [TypeError].  The properties of [from_dict] are
    stated on arguments of the documented types only. *)
Definition truthy (v : value) : bool :=
  match v with
  | VNone => false
  | VBool b => b
  | VNum q => negb (num_eq q 0)
  | VStr s => negb (bool_decide (s = ""))
  | VList l => match l with [] => false | _ => true end
  | VDict d => negb (bool_decide (d = ∅))
  end.

Definition as_str (v : value) : result string :=
  match v with
  | VStr s => inr s
  | _ => inl (TypeError "expected a string")
  end.

Definition as_num (v : value) : option Q :=
  match v with VNum q => Some q | _ => None end.

Definition unexpected_keyword : exn :=
  TypeError "__init__() got an unexpected keyword argument".

Definition new_ContainsSpecieFilter (kwargs : gmap string value)
  : result Filter :=
  if bool_decide (dom kwargs ⊆ ({["species"; "strict_compare"; "AND";
                                  "exclude"]} : gset string)) then
    match kwargs !! "species" with
    | None => inl (TypeError "__init__() takes at least 2 arguments")
    | Some (VList l) =>
        species ← py_map as_str l;
        c ← ContainsSpecieFilter_init species
               (truthy (default (VBool false) (kwargs !! "strict_compare")))
               (truthy (default (VBool true) (kwargs !! "AND")))
               (truthy (default (VBool false) (kwargs !! "exclude")));
        mret (AContainsSpecieFilter c)
    | Some _ => inl (TypeError "species is not a list")
    end
  else inl unexpected_keyword.

Definition new_SpecieProximityFilter (kwargs : gmap string value)
  : result Filter :=
  if bool_decide (dom kwargs ⊆ ({["specie_and_min_dist_dict"]}
                                  : gset string)) then
    match kwargs !! "specie_and_min_dist_dict" with
    | None => inl (TypeError "__init__() takes exactly 2 arguments")
    | Some (VDict d) =>
        if bool_decide (map_Forall (fun _ v => is_Some (as_num v)) d) then
          p ← SpecieProximityFilter_init (omap as_num d);
          mret (ASpecieProximityFilter p)
        else inl (TypeError "a minimum distance is not a number")
    | Some _ => inl (TypeError "specie_and_min_dist_dict is not a dict")
    end
  else inl unexpected_keyword.

Definition new_RemoveDuplicatesFilter (kwargs : gmap string value)
  : result Filter :=
  if bool_decide (dom kwargs ⊆ ({["structure_matcher"; "symprec"]}
                                  : gset string)) then
    structure_matcher ←
      match kwargs !! "structure_matcher" with
      | None => inr (inr default_structure_matcher)
      | Some (VDict d) => inr (inl d)
      | Some _ => inl (TypeError "structure_matcher is not a dict")
      end;
    symprec ←
      match kwargs !! "symprec" with
      | None | Some VNone => inr None
      | Some (VNum q) => inr (Some q)
      | Some _ => inl (TypeError "symprec is not a number")
      end;
    r ← RemoveDuplicatesFilter_init structure_matcher symprec;
    mret (ARemoveDuplicatesFilter r)
  else inl unexpected_keyword.

(** [ChargeBalanceFilter] defines no [__init__]. *)
Definition new_ChargeBalanceFilter (kwargs : gmap string value)
  : result Filter :=
  if bool_decide (kwargs = ∅) then inr AChargeBalanceFilter
  else inl (TypeError "object.__new__() takes no parameters").

(** The classes of the module, by name: [getattr(mod, d['@class'])].  The
    other names bound in the module (its imports, such as
    [StructureMatcher]) also pass [hasattr] in the source, which then
    reads [d['init_args']] and calls them; what they return is no filter,
    and the model, whose results are filters, leaves them out.  The
    properties of [from_dict] are stated on the names of filter classes
    only. *)
Definition getattr (name : string)
  : option (gmap string value -> result Filter) :=
  if decide (name = "ContainsSpecieFilter") then
    Some new_ContainsSpecieFilter
  else if decide (name = "SpecieProximityFilter") then
    Some new_SpecieProximityFilter
  else if decide (name = "RemoveDuplicatesFilter") then
    Some new_RemoveDuplicatesFilter
  else if decide (name = "ChargeBalanceFilter") then
    Some new_ChargeBalanceFilter
  else if decide (name = "AbstractStructureFilter") then
    Some (fun _ =>
            inl (TypeError "Can't instantiate abstract class"))
  else None.

Definition from_dict (d : value) : result Filter :=
  match d with
  | VDict d =>
      cls ← getitem d "@class";
      name ← as_str cls;
      match getattr name with
      | Some trans =>
          init_args ← getitem d "init_args";
          match init_args with
          | VDict kwargs => trans kwargs
          | _ => inl (TypeError "argument after ** must be a mapping")
          end
      | None => inl (ValueError "Invalid filter dict")
      end
  | _ => inl (TypeError "indices must be integers, not str")
  end.

(** The filter's own sequence of calls, for [RemoveDuplicatesFilter]. *)
Fixpoint run_tests (l : list Structure) (w : world)
  : list (result bool) * world :=
  match l with
  | [] => ([], w)
  | s :: l' =>
      let '(r, w') := RemoveDuplicatesFilter_test s w in
      let '(rs, w'') := run_tests l' w' in
      (r :: rs, w'')
  end.

(** A freshly constructed filter. *)
Definition fresh (sm : StructureMatcher) (symprec : option Q) : world :=
  {| this := {| _symprec := symprec; _structure_list := []; _sm := sm |};
     calls := [] |}.

(** ** Properties *)

(** *** ChargeBalanceFilter *)

(** C9. [ChargeBalanceFilter.test] returns true exactly when the net charge
    of the structure equals zero; every other charge, however small, is
    rejected. *)
Theorem ChargeBalanceFilter_test_iff (structure : Structure) :
  (ChargeBalanceFilter_test structure = true <-> charge structure == 0)
  /\ (ChargeBalanceFilter_test structure = false
      <-> ~ charge structure == 0).
Proof.
  unfold ChargeBalanceFilter_test, num_eq.
  destruct (Qeq_bool (charge structure) 0) eqn:E.
  - apply Qeq_bool_eq in E. split; split; intros; try done.
  - apply Qeq_bool_neq in E. split; split; intros; try done.
Qed.

(** *** ContainsSpecieFilter *)

(** The comparison key of a species, as the specification words it: the
    atomic number unless the comparison is strict. *)
Definition comparison_key (strict : bool) (sp : Specie) : nat + Specie :=
  if strict then inr sp else inl (specie_Z sp).

Definition key_set (strict : bool) (l : list Specie) : gset (nat + Specie) :=
  list_to_set (map (comparison_key strict) l).

(** "The structure matches", as the specification words it. *)
Definition matches (self : ContainsSpecieFilter) (structure : Structure)
  : bool :=
  let F := key_set (_strict self) (_species self) in
  let S := key_set (_strict self) (composition_elements structure) in
  if _AND self then bool_decide (F ⊆ S) else bool_decide (F ∩ S ≠ ∅).

Lemma csf_decide_image `{Countable K1} `{Countable K2} (g : K1 -> K2)
    (AND exclude : bool) (l1 l2 : list K1) :
  Inj (=) (=) g ->
  csf_decide AND exclude (list_to_set l1) (list_to_set l2)
  = if (if AND
        then bool_decide ((list_to_set (map g l1) : gset K2)
                          ⊆ list_to_set (map g l2))
        else bool_decide ((list_to_set (map g l1) : gset K2)
                          ∩ list_to_set (map g l2) ≠ ∅))
    then negb exclude else exclude.
Proof.
  intros Hg. unfold csf_decide.
  assert (Hin : forall (l : list K1) x,
             g x ∈ (list_to_set (map g l) : gset K2)
             <-> x ∈ (list_to_set l : gset K1)).
  { intros l x. rewrite !elem_of_list_to_set, list_elem_of_fmap.
    split; [intros (y & Hy & ?); by rewrite (Hg _ _ Hy) | eauto]. }
  assert (Himg : forall (l : list K1) y,
             y ∈ (list_to_set (map g l) : gset K2)
             -> exists x, y = g x /\ x ∈ (list_to_set l : gset K1)).
  { intros l y. rewrite !elem_of_list_to_set, list_elem_of_fmap.
    intros (x & -> & ?). exists x. by rewrite elem_of_list_to_set. }
  destruct AND; simpl.
  - apply (f_equal (fun b : bool => if b then negb exclude else exclude)).
    apply bool_decide_ext. split.
    + intros Hsub y Hy. apply Himg in Hy as (x & -> & Hx).
      apply Hin, Hsub, Hx.
    + intros Hsub x Hx. apply Hin, Hsub, Hin, Hx.
  - rewrite <- (bool_decide_not (_ = ∅)).
    apply (f_equal (fun b : bool => if b then negb exclude else exclude)).
    apply bool_decide_ext. split.
    + intros Hne Hempty. apply Hne. apply set_eq. intros x.
      split; [|by intros ?%not_elem_of_empty].
      intros [Ha%Hin Hb%Hin]%elem_of_intersection.
      exfalso. apply (not_elem_of_empty (C := gset K2) (g x)).
      rewrite <- Hempty. by apply elem_of_intersection.
    + intros Hne Hempty. apply Hne. apply set_eq. intros y.
      split; [|by intros ?%not_elem_of_empty].
      intros [Ha Hb]%elem_of_intersection.
      apply Himg in Ha as (x & -> & Hx). apply Hin in Hb.
      exfalso. apply (not_elem_of_empty (C := gset K1) x).
      rewrite <- Hempty. by apply elem_of_intersection.
Qed.

Lemma csf_decide_no_species `{Countable Key} (exclude : bool)
    (S : gset Key) :
  csf_decide true exclude ∅ S = negb exclude
  /\ csf_decide false exclude ∅ S = exclude.
Proof.
  unfold csf_decide. simpl. split.
  - rewrite bool_decide_eq_true_2; [done | apply empty_subseteq].
  - rewrite bool_decide_eq_true_2; [done |].
    apply set_eq. intros x. rewrite elem_of_intersection.
    split; [by intros [?%not_elem_of_empty _] | by intros ?%not_elem_of_empty].
Qed.

(** C3. [ContainsSpecieFilter.test] returns [not exclude] when the
    structure matches and [exclude] when it does not, where the structure
    matches when the configured keys are a subset of (AND) or intersect
    (not AND) the keys of the structure.  With no configured species every
    structure matches under AND and none does otherwise. *)
Theorem ContainsSpecieFilter_test_matches :
  (forall (self : ContainsSpecieFilter) (structure : Structure),
      ContainsSpecieFilter_test self structure
      = if matches self structure then negb (_exclude self)
        else _exclude self)
  /\ (forall (strict exclude : bool) (structure : Structure),
         ContainsSpecieFilter_test
           {| _species := []; _strict := strict; _AND := true;
              _exclude := exclude |} structure = negb exclude
         /\ ContainsSpecieFilter_test
              {| _species := []; _strict := strict; _AND := false;
                 _exclude := exclude |} structure = exclude).
Proof.
  split.
  - intros [species strict AND exclude] structure.
    unfold ContainsSpecieFilter_test, matches, key_set, comparison_key.
    simpl. destruct strict; simpl.
    + by apply (csf_decide_image (@inr nat Specie)); apply _.
    + rewrite (csf_decide_image (@inl nat Specie)) by apply _.
      by rewrite !map_map.
  - intros strict exclude structure.
    unfold ContainsSpecieFilter_test. simpl.
    destruct strict; simpl; apply csf_decide_no_species.
Qed.

(** *** SpecieProximityFilter *)

Lemma num_lt_spec (x y : Q) : num_lt x y = true <-> (x < y)%Q.
Proof.
  unfold num_lt. rewrite negb_true_iff, <- not_true_iff_false, Qle_bool_iff.
  split; [apply Qnot_le_lt | apply Qlt_not_le].
Qed.

Lemma py_max_from_ge (l : list Q) (cur x : Q) :
  x = cur \/ x ∈ l -> (x <= py_max_from cur l)%Q.
Proof.
  revert cur x. induction l as [|y l IH]; intros cur x Hx; simpl.
  - destruct Hx as [-> | Hx]; [apply Qle_refl | by apply elem_of_nil in Hx].
  - destruct (num_lt cur y) eqn:E.
    + apply num_lt_spec in E.
      destruct Hx as [-> | [-> | Hx]%elem_of_cons].
      * apply Qle_trans with y; [by apply Qlt_le_weak | apply IH; by left].
      * apply IH; by left.
      * apply IH; by right.
    + assert (y <= cur)%Q as Hle.
      { apply Qnot_lt_le. intros Hlt. apply num_lt_spec in Hlt. congruence. }
      destruct Hx as [-> | [-> | Hx]%elem_of_cons].
      * apply IH; by left.
      * apply Qle_trans with cur; [done | apply IH; by left].
      * apply IH; by right.
Qed.

(** [n] is a periodic neighbour of [site] at distance [d]: some
    bounded-radius query returns it. *)
Definition periodic_neighbor (structure : Structure) (site n : Site)
    (d : Q) : Prop :=
  exists r, (n, d) ∈ get_neighbors structure site r.

(** The contract of the neighbour search: a query of radius [r'] returns
    every periodic neighbour closer than [r']. *)
Definition complete_within_radius (structure : Structure) : Prop :=
  forall site r r' n d,
    (n, d) ∈ get_neighbors structure site r -> (d < r')%Q ->
    (n, d) ∈ get_neighbors structure site r'.

(** A violation at [site]: a configured species [sp] of the site with a
    periodic neighbour carrying [sp] closer than the minimum distance. *)
Definition violation (self : SpecieProximityFilter) (structure : Structure)
    (site : Site) : Prop :=
  exists sp v n d,
    sp ∈ dom (species_and_occu site)
    /\ specie_and_min_dist self !! sp = Some v
    /\ periodic_neighbor structure site n d
    /\ sp ∈ dom (species_and_occu n)
    /\ (d < v)%Q.

Lemma spf_too_close_true (self : SpecieProximityFilter) (sp : Specie)
    (nn : list (Site * Q)) :
  spf_too_close self sp nn = true
  <-> exists n d, (n, d) ∈ nn /\ sp ∈ dom (species_and_occu n)
                  /\ (d < specie_and_min_dist self !!! sp)%Q.
Proof.
  unfold spf_too_close. rewrite existsb_exists. split.
  - intros ([n d] & Hin & Hb). apply andb_true_iff in Hb as [Hsp Hlt].
    exists n, d. apply bool_decide_eq_true in Hsp.
    apply num_lt_spec in Hlt. by rewrite list_elem_of_In.
  - intros (n & d & Hin & Hsp & Hlt). exists (n, d).
    rewrite <- list_elem_of_In. split; [done |].
    apply andb_true_iff. split; [by apply bool_decide_eq_true |].
    by apply num_lt_spec.
Qed.

Lemma spf_site_true (self : SpecieProximityFilter) (structure : Structure)
    (site : Site) :
  complete_within_radius structure ->
  spf_site self structure (dom (specie_and_min_dist self)) site = true
  <-> violation self structure site.
Proof.
  intros Hnn. unfold spf_site, violation.
  set (m := specie_and_min_dist self).
  assert (Hmem : forall sp,
             sp ∈ elements (dom (species_and_occu site) ∩ dom m)
             <-> sp ∈ dom (species_and_occu site) /\ is_Some (m !! sp)).
  { intros sp. by rewrite elem_of_elements, elem_of_intersection,
      (elem_of_dom m). }
  destruct (elements (dom (species_and_occu site) ∩ dom m))
    as [|sp0 sps] eqn:E.
  - split; [done |]. intros (sp & v & n & d & Hsp & Hv & _).
    exfalso. eapply elem_of_nil, Hmem. eauto.
  - rewrite existsb_exists. split.
    + intros (sp & Hin & Hclose). apply list_elem_of_In, Hmem in Hin.
      destruct Hin as [Hsp [v Hv]].
      apply spf_too_close_true in Hclose as (n & d & Hn & Hnsp & Hlt).
      rewrite (lookup_total_correct _ _ _ Hv) in Hlt.
      exists sp, v, n, d. repeat split; try done. by eexists.
    + intros (sp & v & n & d & Hsp & Hv & [r Hr] & Hnsp & Hlt).
      assert (sp ∈ sp0 :: sps) as Hin by (apply Hmem; eauto).
      exists sp. split; [by apply list_elem_of_In |].
      apply spf_too_close_true. exists n, d.
      rewrite (lookup_total_correct _ _ _ Hv). split; [| done].
      apply (Hnn site r); [done |].
      apply Qlt_le_trans with v; [done |].
      rewrite <- (lookup_total_correct _ _ _ Hv).
      apply py_max_from_ge.
      apply elem_of_cons in Hin as [-> | Hin]; [by left | right].
      apply list_elem_of_fmap. eauto.
Qed.

(** C2. [SpecieProximityFilter.test] returns false exactly when some site
    carries a configured species [sp] and has a periodic neighbour that
    also carries [sp] at a distance strictly below the minimum distance of
    [sp]; it returns true exactly when every such neighbour is at least at
    the minimum distance, the minimum distance itself included. *)
Theorem SpecieProximityFilter_test_strict (self : SpecieProximityFilter)
    (structure : Structure) :
  complete_within_radius structure ->
  (SpecieProximityFilter_test self structure = false
   <-> exists site, site ∈ sites structure
                    /\ violation self structure site)
  /\ (SpecieProximityFilter_test self structure = true
      <-> forall site sp v n d,
            site ∈ sites structure ->
            sp ∈ dom (species_and_occu site) ->
            specie_and_min_dist self !! sp = Some v ->
            periodic_neighbor structure site n d ->
            sp ∈ dom (species_and_occu n) ->
            (v <= d)%Q).
Proof.
  intros Hnn.
  assert (Hfalse : SpecieProximityFilter_test self structure = false
                   <-> exists site, site ∈ sites structure
                                    /\ violation self structure site).
  { unfold SpecieProximityFilter_test.
    rewrite negb_false_iff, existsb_exists. split.
    - intros (site & Hin & Hv). exists site.
      split; [by apply list_elem_of_In | by apply spf_site_true].
    - intros (site & Hin & Hv). exists site.
      split; [by apply list_elem_of_In | by apply spf_site_true]. }
  split; [done |].
  rewrite <- not_false_iff_true, Hfalse. split.
  - intros Hno site sp v n d Hsite Hsp Hv Hn Hnsp.
    apply Qnot_lt_le. intros Hlt. apply Hno.
    exists site. split; [done |]. by exists sp, v, n, d.
  - intros Hall (site & Hsite & sp & v & n & d & Hsp & Hv & Hn & Hnsp & Hlt).
    eapply Qlt_not_le; [exact Hlt |]. by eapply Hall.
Qed.

Lemma existsb_Forall2 {A B} (P : A -> B -> Prop) (f : A -> bool)
    (g : B -> bool) (l1 : list A) (l2 : list B) :
  (forall x y, P x y -> f x = g y) ->
  Forall2 P l1 l2 -> existsb f l1 = existsb g l2.
Proof.
  intros Hfg Hl. induction Hl as [|x y l1 l2 Hxy _ IH]; simpl; [done |].
  by rewrite (Hfg x y Hxy), IH.
Qed.

Lemma num_lt_proper (d1 d2 v : Q) : d1 == d2 -> num_lt d1 v = num_lt d2 v.
Proof.
  intros Heq. apply eq_true_iff_eq. rewrite !num_lt_spec. by rewrite Heq.
Qed.

(** Two sites carry the same species, whatever the occupancies. *)
Definition same_species (s1 s2 : Site) : Prop :=
  dom (species_and_occu s1) = dom (species_and_occu s2).

(** Two neighbour lists agree up to occupancies: the same distances, and
    neighbours related by [R]. *)
Definition same_neighbors (R : Site -> Site -> Prop)
    (nn1 nn2 : list (Site * Q)) : Prop :=
  Forall2 (fun p1 p2 => R (fst p1) (fst p2) /\ snd p1 == snd p2) nn1 nn2.

(** C10. [SpecieProximityFilter.test] does not depend on occupancies: on
    two structures whose sites correspond one to one ([R]), corresponding
    sites carrying the same species and having corresponding neighbours at
    the same distances, it returns the same result. *)
Theorem SpecieProximityFilter_test_occupancy_insensitive
    (self : SpecieProximityFilter) (R : Site -> Site -> Prop)
    (structure1 structure2 : Structure) :
  (forall s1 s2, R s1 s2 -> same_species s1 s2) ->
  Forall2 R (sites structure1) (sites structure2) ->
  (forall s1 s2 r,
      R s1 s2 ->
      same_neighbors R (get_neighbors structure1 s1 r)
                       (get_neighbors structure2 s2 r)) ->
  SpecieProximityFilter_test self structure1
  = SpecieProximityFilter_test self structure2.
Proof.
  intros Hspecies Hsites Hnn. unfold SpecieProximityFilter_test.
  f_equal. apply (existsb_Forall2 R); [| done].
  intros s1 s2 Hs. unfold spf_site. rewrite (Hspecies s1 s2 Hs).
  destruct (elements _) as [|sp0 sps]; [done |].
  apply (existsb_Forall2 eq); [| by apply Forall_Forall2_diag, Forall_true].
  intros sp ? <-. unfold spf_too_close.
  eapply existsb_Forall2; [| by apply Hnn].
  intros [n1 d1] [n2 d2] [Hn Hd]. simpl in *.
  by rewrite (Hspecies n1 n2 Hn), (num_lt_proper d1 d2 _ Hd).
Qed.

(** *** RemoveDuplicatesFilter *)

(** The test of the loop body on one retained structure [s], without the
    log: [inr true] when [structure] is found a duplicate of [s]. *)
Definition cascade (self : RemoveDuplicatesFilter)
    (structure s : Structure) : result bool :=
  h1 ← get_structure_hash (_sm self) structure;
  h2 ← get_structure_hash (_sm self) s;
  if bool_decide (h1 = h2) then
    same_sg ← match _symprec self with
              | None => inr true
              | Some symprec =>
                  g1 ← get_spacegroup_number s symprec;
                  g2 ← get_spacegroup_number structure symprec;
                  inr (bool_decide (g1 = g2))
              end;
    if same_sg : bool then fit (_sm self) s structure else inr false
  else inr false.

(** The outcome of the loop over the retained structures. *)
Fixpoint scan (self : RemoveDuplicatesFilter) (structure : Structure)
    (l : list Structure) : result bool :=
  match l with
  | [] => inr false
  | s :: l' =>
      match cascade self structure s with
      | inl e => inl e
      | inr true => inr true
      | inr false => scan self structure l'
      end
  end.

(** The calls of [fit] in a log were all made on a retained structure and
    the tested one, after their hashes were found equal. *)
Definition fit_calls_guarded (self : RemoveDuplicatesFilter)
    (structure : Structure) (l : list Structure) (log : list call) : Prop :=
  forall a b,
    Call_fit a b ∈ log ->
    b = structure /\ a ∈ l
    /\ get_structure_hash (_sm self) a
       = get_structure_hash (_sm self) structure.

Lemma fit_calls_guarded_mono self structure s l log :
  fit_calls_guarded self structure l log ->
  fit_calls_guarded self structure (s :: l) log.
Proof.
  intros Hg a b Hab. destruct (Hg a b Hab) as (? & ? & ?).
  repeat split; [done | by right | done].
Qed.

Ltac no_fit_call :=
  let Hab := fresh "Hab" in
  intros ? ? Hab;
  repeat (apply elem_of_cons in Hab as [Hab | Hab]; [discriminate Hab |]);
  by apply elem_of_nil in Hab.

Ltac one_fit_call :=
  let Hab := fresh "Hab" in
  intros ? ? Hab;
  repeat (apply elem_of_cons in Hab as [Hab | Hab];
          [first [ discriminate Hab
                 | injection Hab as -> ->;
                   repeat split; first [done | by left | congruence] ] |]);
  by apply elem_of_nil in Hab.

Lemma rdf_loop_spec (self : RemoveDuplicatesFilter) (structure : Structure)
    (l : list Structure) (w : world) :
  exists log,
    rdf_loop self structure l w
    = (scan self structure l, {| this := this w; calls := log ++ calls w |})
    /\ fit_calls_guarded self structure l log.
Proof.
  revert w. induction l as [|s l IH]; intros w.
  - exists []. destruct w. split; [done |]. by intros a b ?%elem_of_nil.
  - assert (Hrec : forall pre,
               (forall a b, Call_fit a b ∈ pre ->
                            b = structure /\ a = s
                            /\ get_structure_hash (_sm self) a
                               = get_structure_hash (_sm self) structure) ->
               exists log,
                 rdf_loop self structure l
                   {| this := this w; calls := pre ++ calls w |}
                 = (scan self structure l,
                    {| this := this w; calls := log ++ calls w |})
                 /\ fit_calls_guarded self structure (s :: l) log).
    { intros pre Hpre.
      destruct (IH {| this := this w; calls := pre ++ calls w |})
        as (log & -> & Hg).
      exists (log ++ pre). simpl. rewrite <- app_assoc. split; [done |].
      intros a b [Hab | Hab]%elem_of_app.
      - by apply (fit_calls_guarded_mono self structure s l log).
      - destruct (Hpre a b Hab) as (-> & -> & ?).
        repeat split; [by left | done]. }
    simpl. unfold cascade, mbind, M_bind, result_bind, call_hash, call_fit,
      get_sg, invoke. simpl.
    destruct (get_structure_hash (_sm self) structure) as [e | h1] eqn:Eh1.
    { eexists [_]. split; [reflexivity | no_fit_call]. }
    destruct (get_structure_hash (_sm self) s) as [e | h2] eqn:Eh2.
    { eexists [_; _]. split; [reflexivity | no_fit_call]. }
    simpl. case_bool_decide as Hh.
    2:{ apply (Hrec [_; _]). no_fit_call. }
    subst h2. destruct (_symprec self) as [p |]; simpl.
    + destruct (get_spacegroup_number s p) as [e | g1].
      { eexists [_; _; _]. split; [reflexivity | no_fit_call]. }
      destruct (get_spacegroup_number structure p) as [e | g2].
      { eexists [_; _; _; _]. split; [reflexivity | no_fit_call]. }
      simpl. case_bool_decide as Hg.
      2:{ apply (Hrec [_; _; _; _]). no_fit_call. }
      destruct (fit (_sm self) s structure) as [e | [|]].
      * eexists [_; _; _; _; _]. split; [reflexivity | one_fit_call].
      * eexists [_; _; _; _; _]. split; [reflexivity | one_fit_call].
      * apply (Hrec [_; _; _; _; _]). one_fit_call.
    + destruct (fit (_sm self) s structure) as [e | [|]].
      * eexists [_; _; _]. split; [reflexivity | one_fit_call].
      * eexists [_; _; _]. split; [reflexivity | one_fit_call].
      * apply (Hrec [_; _; _]). one_fit_call.
Qed.

(** The filter object after an accepted [structure]. *)
Definition retain (self : RemoveDuplicatesFilter) (structure : Structure)
  : RemoveDuplicatesFilter :=
  {| _symprec := _symprec self;
     _structure_list := _structure_list self ++ [structure];
     _sm := _sm self |}.

(** What [test] returns and the filter object it leaves, without the
    log. *)
Definition outcome (self : RemoveDuplicatesFilter) (structure : Structure)
  : result bool * RemoveDuplicatesFilter :=
  match scan self structure (_structure_list self) with
  | inl e => (inl e, self)
  | inr true => (inr false, self)
  | inr false => (inr true, retain self structure)
  end.

Lemma rdf_test_spec (structure : Structure) (w : world) :
  exists log,
    RemoveDuplicatesFilter_test structure w
    = (fst (outcome (this w) structure),
       {| this := snd (outcome (this w) structure);
          calls := log ++ calls w |})
    /\ fit_calls_guarded (this w) structure (_structure_list (this w)) log.
Proof.
  unfold RemoveDuplicatesFilter_test, outcome, mbind, M_bind, read_self.
  destruct w as [[symprec l sm] log0]. simpl.
  destruct l as [|s0 l].
  - exists []. split; [done |]. by intros a b ?%elem_of_nil.
  - set (self := {| _symprec := symprec; _structure_list := s0 :: l;
                    _sm := sm |}).
    destruct (rdf_loop_spec self structure (s0 :: l)
                {| this := self; calls := log0 |}) as (log & Hloop & Hg).
    exists log. split; [| done].
    change (rdf_loop self structure (s0 :: l) {| this := self; calls := log0 |}
            = (scan self structure (s0 :: l),
               {| this := self; calls := log ++ log0 |})) in Hloop.
    rewrite Hloop.
    by destruct (scan self structure (s0 :: l)) as [e | [|]].
Qed.

Lemma scan_false (self : RemoveDuplicatesFilter) (structure : Structure)
    (l : list Structure) :
  scan self structure l = inr false
  <-> Forall (fun s => cascade self structure s = inr false) l.
Proof.
  induction l as [|s l IH]; simpl.
  - split; [by constructor | done].
  - rewrite Forall_cons, <- IH.
    destruct (cascade self structure s) as [e | [|]]; split;
      try done; by intros [? ?].
Qed.

Lemma scan_true (self : RemoveDuplicatesFilter) (structure : Structure)
    (l : list Structure) :
  scan self structure l = inr true
  <-> exists l1 s l2,
        l = l1 ++ s :: l2
        /\ Forall (fun s => cascade self structure s = inr false) l1
        /\ cascade self structure s = inr true.
Proof.
  induction l as [|s l IH]; simpl.
  - split; [done | by intros ([|??] & ? & ? & ? & _)].
  - destruct (cascade self structure s) as [e | [|]] eqn:E.
    + split; [done |]. intros ([|s' l1] & s2 & l2 & Hl & Hf & Hc).
      * injection Hl as -> _. congruence.
      * injection Hl as -> _. apply Forall_cons in Hf as [? _]. congruence.
    + split; [| done]. intros _. exists [], s, l. by repeat split.
    + rewrite IH. split.
      * intros (l1 & s2 & l2 & -> & Hf & Hc).
        exists (s :: l1), s2, l2. repeat split; [| done].
        by apply Forall_cons.
      * intros ([|s' l1] & s2 & l2 & Hl & Hf & Hc).
        -- injection Hl as -> _. congruence.
        -- injection Hl as -> ->. apply Forall_cons in Hf as [_ Hf].
           by exists l1, s2, l2.
Qed.

Lemma scan_raise (self : RemoveDuplicatesFilter) (structure : Structure)
    (l : list Structure) (e : exn) :
  scan self structure l = inl e
  <-> exists l1 s l2,
        l = l1 ++ s :: l2
        /\ Forall (fun s => cascade self structure s = inr false) l1
        /\ cascade self structure s = inl e.
Proof.
  induction l as [|s l IH]; simpl.
  - split; [done | by intros ([|??] & ? & ? & ? & _)].
  - destruct (cascade self structure s) as [e' | [|]] eqn:E.
    + split.
      * intros [= ->]. exists [], s, l. by repeat split.
      * intros ([|s' l1] & s2 & l2 & Hl & Hf & Hc).
        -- injection Hl as -> _. congruence.
        -- injection Hl as -> _. apply Forall_cons in Hf as [? _].
           congruence.
    + split; [done |]. intros ([|s' l1] & s2 & l2 & Hl & Hf & Hc).
      * injection Hl as -> _. congruence.
      * injection Hl as -> _. apply Forall_cons in Hf as [? _]. congruence.
    + rewrite IH. split.
      * intros (l1 & s2 & l2 & -> & Hf & Hc).
        exists (s :: l1), s2, l2. repeat split; [| done].
        by apply Forall_cons.
      * intros ([|s' l1] & s2 & l2 & Hl & Hf & Hc).
        -- injection Hl as -> _. congruence.
        -- injection Hl as -> ->. apply Forall_cons in Hf as [_ Hf].
           by exists l1, s2, l2.
Qed.

(** The exception [e] is one that a collaborator raised on [structure] and
    the retained structure [s]. *)
Definition raised_on (self : RemoveDuplicatesFilter)
    (structure s : Structure) (e : exn) : Prop :=
  get_structure_hash (_sm self) structure = inl e
  \/ get_structure_hash (_sm self) s = inl e
  \/ (exists symprec,
         _symprec self = Some symprec
         /\ (get_spacegroup_number s symprec = inl e
             \/ get_spacegroup_number structure symprec = inl e))
  \/ fit (_sm self) s structure = inl e.

Lemma cascade_raise (self : RemoveDuplicatesFilter)
    (structure s : Structure) (e : exn) :
  cascade self structure s = inl e -> raised_on self structure s e.
Proof.
  unfold cascade, raised_on, mbind, result_bind.
  destruct (get_structure_hash (_sm self) structure) as [e1 | h1];
    [intros [= ->]; by left |].
  destruct (get_structure_hash (_sm self) s) as [e2 | h2];
    [intros [= ->]; right; by left |].
  case_bool_decide; [| done].
  destruct (_symprec self) as [p |].
  - destruct (get_spacegroup_number s p) as [e3 | g1] eqn:E3.
    { intros [= ->]. right; right; left. exists p. split; [done | by left]. }
    destruct (get_spacegroup_number structure p) as [e4 | g2] eqn:E4.
    { intros [= ->]. right; right; left. exists p. split; [done | by right]. }
    case_bool_decide; [| done]. intros Hfit. by repeat right.
  - intros Hfit. by repeat right.
Qed.

(** C5. When a collaborator raises during [test] (on a retained structure
    [s], the structures before [s] having been found different), the
    exception reaches the caller and the filter object, hence its retained
    list, is as it was before the call.  The tested structure is appended
    only once it has been checked against every retained structure, each
    check having completed without an exception and found no duplicate; a
    call that returns false changes nothing either. *)
Theorem RemoveDuplicatesFilter_test_no_partial_append
    (structure : Structure) (w : world) :
  (forall e l1 s l2,
      _structure_list (this w) = l1 ++ s :: l2 ->
      Forall (fun s0 => cascade (this w) structure s0 = inr false) l1 ->
      cascade (this w) structure s = inl e ->
      fst (RemoveDuplicatesFilter_test structure w) = inl e
      /\ this (snd (RemoveDuplicatesFilter_test structure w)) = this w)
  /\ match RemoveDuplicatesFilter_test structure w with
     | (inl e, w') =>
         this w' = this w
         /\ exists s, s ∈ _structure_list (this w)
                      /\ raised_on (this w) structure s e
     | (inr false, w') =>
         this w' = this w
         /\ exists s, s ∈ _structure_list (this w)
                      /\ cascade (this w) structure s = inr true
     | (inr true, w') =>
         this w' = retain (this w) structure
         /\ Forall (fun s => cascade (this w) structure s = inr false)
                   (_structure_list (this w))
     end.
Proof.
  destruct (rdf_test_spec structure w) as (log & -> & _).
  unfold outcome. split.
  - intros e l1 s l2 Hl Hl1 Hs.
    assert (scan (this w) structure (_structure_list (this w)) = inl e)
      as -> by (apply scan_raise; by exists l1, s, l2).
    done.
  - destruct (scan (this w) structure (_structure_list (this w)))
      as [e | [|]] eqn:E; simpl.
    + split; [done |].
      apply scan_raise in E as (l1 & s & l2 & -> & _ & Hc).
      exists s. split; [| by apply cascade_raise].
      apply elem_of_app. right. by left.
    + split; [done |].
      apply scan_true in E as (l1 & s & l2 & -> & _ & Hc).
      exists s. split; [| done]. apply elem_of_app. right. by left.
    + split; [done |]. by apply scan_false.
Qed.

Lemma cascade_hash_differs (self : RemoveDuplicatesFilter)
    (structure s : Structure) (h hs : HashKey) :
  get_structure_hash (_sm self) structure = inr h ->
  get_structure_hash (_sm self) s = inr hs ->
  hs <> h ->
  cascade self structure s = inr false.
Proof.
  intros Hh Hs Hne. unfold cascade, mbind, result_bind. rewrite Hh, Hs.
  rewrite bool_decide_eq_false_2; [done | congruence].
Qed.

(** C6. During a call of [test], [fit] is never called on a retained
    structure whose structural hash differs from the hash of the tested
    structure; and when the hash of every retained structure differs, the
    call makes no call of [fit] at all, returns true and appends the
    structure. *)
Theorem RemoveDuplicatesFilter_test_hash_prunes_fit
    (structure : Structure) (w : world) :
  exists log,
    calls (snd (RemoveDuplicatesFilter_test structure w)) = log ++ calls w
    /\ (forall s,
           get_structure_hash (_sm (this w)) s
           <> get_structure_hash (_sm (this w)) structure ->
           Call_fit s structure ∉ log)
    /\ (forall h,
           get_structure_hash (_sm (this w)) structure = inr h ->
           Forall (fun s => exists hs,
                       get_structure_hash (_sm (this w)) s = inr hs
                       /\ hs <> h)
                  (_structure_list (this w)) ->
           fst (RemoveDuplicatesFilter_test structure w) = inr true
           /\ this (snd (RemoveDuplicatesFilter_test structure w))
              = retain (this w) structure
           /\ forall a b, Call_fit a b ∉ log).
Proof.
  destruct (rdf_test_spec structure w) as (log & Htest & Hg).
  exists log. rewrite Htest. simpl. split; [done |]. split.
  - intros s Hne Hin. by destruct (Hg _ _ Hin) as (_ & _ & ?).
  - intros h Hh Hall.
    assert (scan (this w) structure (_structure_list (this w)) = inr false)
      as Hscan.
    { apply scan_false. eapply Forall_impl; [exact Hall |].
      intros s (hs & Hs & Hne). by eapply cascade_hash_differs. }
    unfold outcome. rewrite Hscan. simpl. repeat split.
    intros a b Hin. destruct (Hg _ _ Hin) as (_ & Ha & Heq).
    rewrite Forall_forall in Hall.
    destruct (Hall a Ha) as (hs & Hs & Hne). congruence.
Qed.

(** A sequence of calls, without the log. *)
Fixpoint outcomes (self : RemoveDuplicatesFilter) (l : list Structure)
  : list (result bool) * RemoveDuplicatesFilter :=
  match l with
  | [] => ([], self)
  | s :: l' =>
      let '(r, self') := outcome self s in
      let '(rs, self'') := outcomes self' l' in
      (r :: rs, self'')
  end.

Lemma run_tests_spec (l : list Structure) (w : world) :
  fst (run_tests l w) = fst (outcomes (this w) l)
  /\ this (snd (run_tests l w)) = snd (outcomes (this w) l).
Proof.
  revert w. induction l as [|s l IH]; intros w; simpl; [done |].
  destruct (rdf_test_spec s w) as (log & -> & _).
  destruct (outcome (this w) s) as [r self'] eqn:E. simpl.
  specialize (IH {| this := self'; calls := log ++ calls w |}).
  simpl in IH. destruct (run_tests l _) as [rs w''].
  destruct (outcomes self' l) as [rs' self'']. simpl in *.
  destruct IH as [-> ->]. done.
Qed.

Lemma cascade_ext (self self' : RemoveDuplicatesFilter)
    (structure s : Structure) :
  _sm self' = _sm self -> _symprec self' = _symprec self ->
  cascade self' structure s = cascade self structure s.
Proof. unfold cascade. by intros -> ->. Qed.

(** Every retained structure failed the cascade against each structure
    retained before it. *)
Definition pairwise_distinct (self : RemoveDuplicatesFilter) : Prop :=
  forall i j s s',
    i < j ->
    _structure_list self !! i = Some s ->
    _structure_list self !! j = Some s' ->
    cascade self s' s = inr false.

Lemma outcome_config (self : RemoveDuplicatesFilter) (structure : Structure) :
  _sm (snd (outcome self structure)) = _sm self
  /\ _symprec (snd (outcome self structure)) = _symprec self.
Proof.
  unfold outcome.
  by destruct (scan self structure (_structure_list self)) as [e | [|]].
Qed.

Lemma outcome_pairwise_distinct (self : RemoveDuplicatesFilter)
    (structure : Structure) :
  pairwise_distinct self ->
  pairwise_distinct (snd (outcome self structure)).
Proof.
  intros Hinv. unfold outcome.
  destruct (scan self structure (_structure_list self)) as [e | [|]] eqn:E;
    simpl; try done.
  apply scan_false in E. rewrite Forall_forall in E.
  intros i j s s' Hij Hi Hj. rewrite (cascade_ext self) by done.
  simpl in Hi, Hj.
  destruct (decide (j < length (_structure_list self))) as [Hlt | Hge].
  - rewrite lookup_app_l in Hi, Hj by lia. exact (Hinv i j s s' Hij Hi Hj).
  - rewrite lookup_app_l in Hi by (apply lookup_lt_Some in Hj;
      rewrite length_app in Hj; simpl in Hj; lia).
    rewrite lookup_app_r in Hj by lia.
    apply list_lookup_singleton_Some in Hj as [_ <-].
    apply E. by eapply list_elem_of_lookup_2.
Qed.

Lemma outcomes_invariant (l : list Structure)
    (self : RemoveDuplicatesFilter) :
  pairwise_distinct self ->
  pairwise_distinct (snd (outcomes self l))
  /\ _sm (snd (outcomes self l)) = _sm self
  /\ _symprec (snd (outcomes self l)) = _symprec self.
Proof.
  revert self. induction l as [|s l IH]; intros self Hinv; simpl; [done |].
  pose proof (outcome_pairwise_distinct self s Hinv) as Hinv'.
  pose proof (outcome_config self s) as [Hsm Hsp].
  destruct (outcome self s) as [r self']. simpl in *.
  destruct (IH self' Hinv') as (? & ? & ?).
  destruct (outcomes self' l) as [rs self'']. simpl in *.
  split; [done |]. split; congruence.
Qed.

(** C4, as the code has it.  After any sequence of calls on a freshly
    constructed filter, every retained structure failed the filter's
    duplicate test (equal hashes, equal space groups when [symprec] is
    given, and [fit]) against each structure retained before it.  When no
    [symprec] is given and the matcher only fits structures of equal hash,
    no retained structure fits one retained before it. *)
Theorem RemoveDuplicatesFilter_retained_pairwise_distinct
    (sm : StructureMatcher) (symprec : option Q) (l : list Structure)
    (i j : nat) (s s' : Structure) :
  let self := this (snd (run_tests l (fresh sm symprec))) in
  i < j ->
  _structure_list self !! i = Some s ->
  _structure_list self !! j = Some s' ->
  cascade self s' s = inr false
  /\ (symprec = None ->
      (forall x y, fit sm x y = inr true ->
                   get_structure_hash sm x = get_structure_hash sm y) ->
      fit sm s s' <> inr true).
Proof.
  intros self Hij Hi Hj. subst self.
  destruct (run_tests_spec l (fresh sm symprec)) as [_ Hthis].
  rewrite Hthis in *. simpl in *.
  set (self0 := {| _symprec := symprec; _structure_list := []; _sm := sm |})
    in *.
  destruct (outcomes_invariant l self0) as (Hinv & Hsm & Hsp).
  { intros ? ? ? ? _ Hnil. unfold self0 in Hnil. simpl in Hnil.
    by rewrite lookup_nil in Hnil. }
  pose proof (Hinv i j s s' Hij Hi Hj) as Hc. split; [done |].
  intros -> Hfit Hfits. revert Hc. unfold cascade, mbind, result_bind.
  rewrite Hsm, Hsp. simpl. rewrite (Hfit _ _ Hfits).
  destruct (get_structure_hash sm s') as [e | h]; [done |].
  rewrite bool_decide_eq_true_2 by done. rewrite Hfits. done.
Qed.

Lemma cascade_true (self : RemoveDuplicatesFilter)
    (structure s : Structure) (h : HashKey) :
  get_structure_hash (_sm self) structure = inr h ->
  get_structure_hash (_sm self) s = inr h ->
  (forall p, _symprec self = Some p ->
             exists g, get_spacegroup_number s p = inr g
                       /\ get_spacegroup_number structure p = inr g) ->
  cascade self structure s = fit (_sm self) s structure.
Proof.
  intros Hh Hs Hsg. unfold cascade, mbind, result_bind. rewrite Hh, Hs.
  rewrite bool_decide_eq_true_2 by done.
  destruct (_symprec self) as [p |]; [| done].
  destruct (Hsg p eq_refl) as (g & -> & ->).
  by rewrite bool_decide_eq_true_2.
Qed.

Lemma cascade_not_fit (self : RemoveDuplicatesFilter)
    (structure s : Structure) (h hs : HashKey) :
  get_structure_hash (_sm self) structure = inr h ->
  get_structure_hash (_sm self) s = inr hs ->
  (forall p, _symprec self = Some p ->
             exists g gs, get_spacegroup_number s p = inr gs
                          /\ get_spacegroup_number structure p = inr g) ->
  fit (_sm self) s structure = inr false ->
  cascade self structure s = inr false.
Proof.
  intros Hh Hs Hsg Hfit. unfold cascade, mbind, result_bind.
  rewrite Hh, Hs. case_bool_decide; [| done].
  destruct (_symprec self) as [p |]; [| done].
  destruct (Hsg p eq_refl) as (g & gs & -> & ->).
  by case_bool_decide.
Qed.

(** C1, as the code has it.  On a freshly constructed filter whose
    collaborators do not raise on the structures involved: a structure [A]
    that fits itself is accepted by the first call and rejected by the
    second, which leaves [A] alone retained; and, independently, when [B]
    has the hash of [A], the space group of [A] if [symprec] is given, and
    fits [A], while [C] does not fit [A], the calls on [A], [B], [C]
    return true, false, true and the retained list ends as [A; C]. *)
Theorem RemoveDuplicatesFilter_test_twice_and_equivalent
    (sm : StructureMatcher) (symprec : option Q) :
  (forall (A : Structure) (h : HashKey),
      get_structure_hash sm A = inr h ->
      (forall p, symprec = Some p ->
                 exists g, get_spacegroup_number A p = inr g) ->
      fit sm A A = inr true ->
      fst (run_tests [A; A] (fresh sm symprec)) = [inr true; inr false]
      /\ _structure_list (this (snd (run_tests [A; A] (fresh sm symprec))))
         = [A])
  /\ (forall (A B C : Structure) (h hc : HashKey),
         get_structure_hash sm A = inr h ->
         get_structure_hash sm B = inr h ->
         get_structure_hash sm C = inr hc ->
         (forall p, symprec = Some p ->
                    exists g gc, get_spacegroup_number A p = inr g
                                 /\ get_spacegroup_number B p = inr g
                                 /\ get_spacegroup_number C p = inr gc) ->
         fit sm A B = inr true ->
         fit sm A C = inr false ->
         fst (run_tests [A; B; C] (fresh sm symprec))
         = [inr true; inr false; inr true]
         /\ _structure_list
              (this (snd (run_tests [A; B; C] (fresh sm symprec))))
            = [A; C]).
Proof.
  split.
  - intros A h HA Hsg HAA.
    set (self1 := retain {| _symprec := symprec; _structure_list := [];
                            _sm := sm |} A).
    assert (cascade self1 A A = inr true) as HcA.
    { rewrite (cascade_true self1 A A h); try done.
      intros p Hp. destruct (Hsg p Hp) as (g & ?). eauto. }
    destruct (run_tests_spec [A; A] (fresh sm symprec)) as [-> ->].
    simpl. unfold outcome. simpl. fold self1. rewrite HcA. done.
  - intros A B C h hc HA HB HC Hsg HAB HAC.
    set (self1 := retain {| _symprec := symprec; _structure_list := [];
                            _sm := sm |} A).
    assert (cascade self1 B A = inr true) as HcB.
    { rewrite (cascade_true self1 B A h); try done.
      intros p Hp. destruct (Hsg p Hp) as (g & gc & ? & ? & ?). eauto. }
    assert (cascade self1 C A = inr false) as HcC.
    { apply (cascade_not_fit self1 C A hc h); try done.
      intros p Hp. destruct (Hsg p Hp) as (g & gc & ? & ? & ?). eauto. }
    destruct (run_tests_spec [A; B; C] (fresh sm symprec)) as [-> ->].
    simpl. unfold outcome. simpl. fold self1. rewrite HcB. simpl.
    fold self1. rewrite HcC. done.
Qed.

(** *** Construction *)

Lemma py_map_raise {A B} (f : A -> result B) (l : list A) (e : exn) :
  py_map f l = inl e
  <-> exists l1 x l2,
        l = l1 ++ x :: l2
        /\ Forall (fun y => is_raise (f y) = false) l1
        /\ f x = inl e.
Proof.
  induction l as [|y l IH]; simpl.
  - split; [done | by intros ([|??] & ? & ? & ? & _)].
  - destruct (f y) as [e' | b] eqn:E.
    + split.
      * intros [= ->]. exists [], y, l. by repeat split.
      * intros ([|y' l1] & x & l2 & Hl & Hf & Hx).
        -- injection Hl as -> _. congruence.
        -- injection Hl as -> _. apply Forall_cons in Hf as [Hy _].
           by rewrite E in Hy.
    + destruct (py_map f l) as [e' | bs].
      * split.
        -- intros [= ->]. destruct IH as [IH _].
           destruct (IH eq_refl) as (l1 & x & l2 & -> & Hf & Hx).
           exists (y :: l1), x, l2. repeat split; [| done].
           apply Forall_cons. by rewrite E.
        -- intros ([|y' l1] & x & l2 & Hl & Hf & Hx).
           ++ injection Hl as -> _. congruence.
           ++ injection Hl as -> ->. apply Forall_cons in Hf as [_ Hf].
              f_equal. assert (inl e' = inl e :> result (list B)) as Heq
                by (apply IH; by exists l1, x, l2).
              by injection Heq.
      * split; [done |].
        intros ([|y' l1] & x & l2 & Hl & Hf & Hx).
        -- injection Hl as -> _. congruence.
        -- injection Hl as -> ->. apply Forall_cons in Hf as [_ Hf].
           assert (inr bs = inl e :> result (list B)) as Heq
             by (apply IH; by exists l1, x, l2).
           done.
Qed.

Lemma spf_comprehension_raise (items : list (string * Q))
    (acc : gmap Specie Q) (e : exn) :
  spf_comprehension items acc = inl e
  <-> exists l1 kv l2,
        items = l1 ++ kv :: l2
        /\ Forall (fun kv => is_raise (smart_element_or_specie (fst kv))
                             = false) l1
        /\ smart_element_or_specie (fst kv) = inl e.
Proof.
  revert acc. induction items as [|[k v] items IH]; intros acc; simpl.
  - split; [done | by intros ([|??] & ? & ? & ? & _)].
  - destruct (smart_element_or_specie k) as [e' | sp] eqn:E.
    + split.
      * intros [= ->]. exists [], (k, v), items. by repeat split.
      * intros ([|kv' l1] & kv & l2 & Hl & Hf & Hx).
        -- injection Hl as <- _. simpl in Hx. congruence.
        -- injection Hl as <- _. apply Forall_cons in Hf as [Hy _].
           simpl in Hy. by rewrite E in Hy.
    + rewrite IH. split.
      * intros (l1 & kv & l2 & -> & Hf & Hx).
        exists ((k, v) :: l1), kv, l2. repeat split; [| done].
        apply Forall_cons. simpl. by rewrite E.
      * intros ([|kv' l1] & kv & l2 & Hl & Hf & Hx).
        -- injection Hl as <- _. simpl in Hx. congruence.
        -- injection Hl as <- ->. apply Forall_cons in Hf as [_ Hf].
           by exists l1, kv, l2.
Qed.

Lemma spf_comprehension_ok (items : list (string * Q))
    (acc m : gmap Specie Q) :
  spf_comprehension items acc = inr m ->
  Forall (fun kv => is_raise (smart_element_or_specie (fst kv)) = false)
         items.
Proof.
  revert acc. induction items as [|[k v] items IH]; intros acc; simpl.
  - by constructor.
  - destruct (smart_element_or_specie k) as [e | sp] eqn:E; [done |].
    intros Hm. apply Forall_cons. simpl. rewrite E. eauto.
Qed.

(** C7, as the code has it.  Constructing a [ContainsSpecieFilter] or a
    [SpecieProximityFilter] raises exactly when one of the species strings
    does not parse, and the exception is the one the species resolver
    raised; the minimum distances are not looked at. *)
Theorem construction_raises_on_unparseable_species :
  (forall (species : list string) (strict_compare AND exclude : bool)
          (e : exn),
      ContainsSpecieFilter_init species strict_compare AND exclude = inl e
      <-> exists l1 s l2,
            species = l1 ++ s :: l2
            /\ Forall (fun x => is_raise (smart_element_or_specie x) = false)
                      l1
            /\ smart_element_or_specie s = inl e)
  /\ (forall (d : gmap string Q),
         is_raise (SpecieProximityFilter_init d) = true
         <-> exists k v, d !! k = Some v
                         /\ is_raise (smart_element_or_specie k) = true)
  /\ (forall (d : gmap string Q) (e : exn),
         SpecieProximityFilter_init d = inl e ->
         exists k v, d !! k = Some v /\ smart_element_or_specie k = inl e).
Proof.
  assert (Hspf : forall (d : gmap string Q) (e : exn),
             SpecieProximityFilter_init d = inl e ->
             exists k v, d !! k = Some v
                         /\ smart_element_or_specie k = inl e).
  { intros d e. unfold SpecieProximityFilter_init.
    destruct (spf_comprehension (map_to_list d) ∅) as [e' | m] eqn:E;
      [| done].
    intros [= ->].
    apply spf_comprehension_raise in E as (l1 & [k v] & l2 & Hl & _ & Hk).
    exists k, v. split; [| done]. apply elem_of_map_to_list. rewrite Hl.
    apply elem_of_app. right. by left. }
  split; [| split; [| done]].
  - intros species strict_compare AND exclude e.
    unfold ContainsSpecieFilter_init. rewrite <- py_map_raise.
    destruct (py_map smart_element_or_specie species); split; congruence.
  - intros d. split.
    + destruct (SpecieProximityFilter_init d) as [e | f] eqn:E; [| done].
      intros _. destruct (Hspf d e E) as (k & v & Hkv & Hk).
      exists k, v. by rewrite Hk.
    + intros (k & v & Hkv & Hk). unfold SpecieProximityFilter_init.
      destruct (spf_comprehension (map_to_list d) ∅) as [e | m] eqn:E;
        [done |].
      apply spf_comprehension_ok in E. rewrite Forall_forall in E.
      apply elem_of_map_to_list in Hkv. apply E in Hkv. simpl in Hkv.
      congruence.
Qed.

(** *** The dict form *)

(** X17. What [from_dict] rebuilds from the dict of a
    [RemoveDuplicatesFilter], for a matcher that survives its own round
    trip: a filter with that matcher, without [symprec] and retaining
    nothing. *)
Lemma from_dict_to_dict_RemoveDuplicatesFilter (r : RemoveDuplicatesFilter)
    (d : gmap string value) :
  sm_to_dict (_sm r) = VDict d ->
  sm_from_dict d = inr (_sm r) ->
  from_dict (to_dict (ARemoveDuplicatesFilter r))
  = inr (ARemoveDuplicatesFilter
           {| _symprec := None; _structure_list := []; _sm := _sm r |}).
Proof.
  destruct r as [symprec l sm]. simpl. intros Hto Hfrom.
  unfold to_dict, RemoveDuplicatesFilter_to_dict. simpl. rewrite Hto.
  vm_compute. rewrite Hfrom. reflexivity.
Qed.

(** [from_dict] on the dict of a [ChargeBalanceFilter]. *)
Lemma from_dict_to_dict_ChargeBalanceFilter :
  from_dict (to_dict AChargeBalanceFilter) = inl (KeyError "init_args").
Proof. vm_compute. reflexivity. Qed.

(** ** Further properties of the filters *)

(** *** RemoveDuplicatesFilter: the retained list *)

(** X1. On a filter that retains nothing yet, [test] accepts the structure
    without calling a collaborator: the log is untouched, and a structure on
    which every collaborator would raise is retained all the same. *)
Theorem RemoveDuplicatesFilter_test_first_call (structure : Structure)
    (w : world) :
  _structure_list (this w) = [] ->
  RemoveDuplicatesFilter_test structure w
  = (inr true, {| this := retain (this w) structure; calls := calls w |}).
Proof.
  destruct w as [[symprec l sm] log]. simpl. intros ->. reflexivity.
Qed.

(** The structures of [l] that were accepted, given the results [rs] of the
    calls on them. *)
Fixpoint accepted (l : list Structure) (rs : list (result bool))
  : list Structure :=
  match l, rs with
  | s :: l', inr true :: rs' => s :: accepted l' rs'
  | _ :: l', _ :: rs' => accepted l' rs'
  | _, _ => []
  end.

(** X2. Over any sequence of calls the retained list only grows at its end,
    by exactly the structures whose call returned true, in call order; calls
    that return false or raise leave it alone. *)
Theorem run_tests_retains_accepted (l : list Structure) (w : world) :
  length (fst (run_tests l w)) = length l
  /\ _structure_list (this (snd (run_tests l w)))
     = _structure_list (this w) ++ accepted l (fst (run_tests l w)).
Proof.
  revert w. induction l as [|s l IH]; intros w; simpl.
  - by rewrite app_nil_r.
  - destruct (rdf_test_spec s w) as (log & -> & _).
    specialize (IH {| this := snd (outcome (this w) s);
                      calls := log ++ calls w |}).
    destruct (run_tests l _) as [rs w'']. simpl in *.
    destruct IH as [Hlen Hl]. rewrite Hlen, Hl. split; [done |].
    unfold outcome.
    destruct (scan (this w) s (_structure_list (this w))) as [e | [|]];
      simpl; try done.
    by rewrite <- app_assoc.
Qed.

Lemma scan_ext (self self' : RemoveDuplicatesFilter) (structure : Structure)
    (l : list Structure) :
  _sm self' = _sm self -> _symprec self' = _symprec self ->
  scan self' structure l = scan self structure l.
Proof.
  intros Hsm Hsp. induction l as [|s l IH]; simpl; [done |].
  by rewrite (cascade_ext self self'), IH.
Qed.

Lemma scan_app (self : RemoveDuplicatesFilter) (structure : Structure)
    (l1 l2 : list Structure) :
  scan self structure (l1 ++ l2)
  = match scan self structure l1 with
    | inr false => scan self structure l2
    | r => r
    end.
Proof.
  induction l1 as [|s l1 IH]; simpl; [done |].
  by destruct (cascade self structure s) as [e | [|]].
Qed.

(** X3. In any state of the filter, a structure that passes the duplicate
    test against itself and whose call did not raise is rejected by the very
    next call on it, whether the first call accepted it or not. *)
Theorem RemoveDuplicatesFilter_test_again_rejects (structure : Structure)
    (w : world) :
  cascade (this w) structure structure = inr true ->
  is_raise (fst (RemoveDuplicatesFilter_test structure w)) = false ->
  fst (RemoveDuplicatesFilter_test structure
         (snd (RemoveDuplicatesFilter_test structure w)))
  = inr false.
Proof.
  intros Hself Hok.
  destruct (rdf_test_spec structure w) as (log & Hw & _).
  rewrite Hw in *. simpl in *.
  destruct (rdf_test_spec structure
              {| this := snd (outcome (this w) structure);
                 calls := log ++ calls w |}) as (log1 & -> & _).
  simpl. unfold outcome in *.
  destruct (scan (this w) structure (_structure_list (this w)))
    as [e | [|]] eqn:E; simpl in *; [done | |].
  - by rewrite E.
  - rewrite (scan_ext (this w)) by done. rewrite scan_app, E. simpl.
    by rewrite Hself.
Qed.

Ltac no_symmetry_call :=
  let Hin := fresh "Hin" in
  intros ? Hin;
  repeat (apply elem_of_cons in Hin as [Hin | Hin]; [discriminate Hin |]);
  by apply elem_of_nil in Hin.

Lemma rdf_loop_no_symmetry (self : RemoveDuplicatesFilter)
    (structure : Structure) (l : list Structure) (w : world) :
  _symprec self = None ->
  exists log,
    calls (snd (rdf_loop self structure l w)) = log ++ calls w
    /\ forall s, Call_get_spacegroup_number s ∉ log.
Proof.
  intros Hsp. revert w. induction l as [|s l IH]; intros w.
  - exists []. split; [done |]. by intros s ?%elem_of_nil.
  - assert (Hrec : forall pre,
               (forall s0, Call_get_spacegroup_number s0 ∉ pre) ->
               exists log,
                 calls (snd (rdf_loop self structure l
                               {| this := this w; calls := pre ++ calls w |}))
                 = log ++ calls w
                 /\ forall s0, Call_get_spacegroup_number s0 ∉ log).
    { intros pre Hpre.
      destruct (IH {| this := this w; calls := pre ++ calls w |})
        as (log & Hlog & Hno).
      exists (log ++ pre). rewrite Hlog. simpl. rewrite <- app_assoc.
      split; [done |]. intros s0 [Hin | Hin]%elem_of_app.
      - by apply (Hno s0).
      - by apply (Hpre s0). }
    simpl. unfold mbind, M_bind, call_hash, call_fit, invoke. simpl.
    rewrite Hsp.
    destruct (get_structure_hash (_sm self) structure) as [e | h1].
    { eexists [_]. split; [reflexivity | no_symmetry_call]. }
    destruct (get_structure_hash (_sm self) s) as [e | h2].
    { eexists [_; _]. split; [reflexivity | no_symmetry_call]. }
    simpl. case_bool_decide.
    2:{ apply (Hrec [_; _]). no_symmetry_call. }
    simpl. destruct (fit (_sm self) s structure) as [e | [|]].
    + eexists [_; _; _]. split; [reflexivity | no_symmetry_call].
    + eexists [_; _; _]. split; [reflexivity | no_symmetry_call].
    + apply (Hrec [_; _; _]). no_symmetry_call.
Qed.

(** X4. A filter constructed without [symprec] never calls the symmetry
    finder: no call of [get_spacegroup_number] is logged during [test]. *)
Theorem RemoveDuplicatesFilter_test_no_symmetry_without_symprec
    (structure : Structure) (w : world) :
  _symprec (this w) = None ->
  exists log,
    calls (snd (RemoveDuplicatesFilter_test structure w)) = log ++ calls w
    /\ forall s, Call_get_spacegroup_number s ∉ log.
Proof.
  intros Hsp. unfold RemoveDuplicatesFilter_test, mbind, M_bind, read_self.
  destruct (_structure_list (this w)) as [|s0 l] eqn:El.
  - exists []. split; [done |]. by intros s ?%elem_of_nil.
  - destruct (rdf_loop_no_symmetry (this w) structure (s0 :: l) w Hsp)
      as (log & Hlog & Hno).
    exists log. split; [| done].
    destruct (rdf_loop (this w) structure (s0 :: l) w) as [[e | [|]] w'];
      simpl in *; done.
Qed.

(** *** The dict form: what [from_dict] builds *)

(** X5. A [RemoveDuplicatesFilter] built by [from_dict] retains nothing
    and has the [symprec] of its ["init_args"] ([None] when there is none),
    for ["init_args"] of the documented types: [structure_matcher], when
    given, a dict, and [symprec], when given, [None] or a number.  The
    retained structures of a filter are not part of its dict form, whereas
    a [symprec] written there would be read back. *)
Theorem from_dict_RemoveDuplicatesFilter_retains_nothing
    (d kwargs : gmap string value) (r : RemoveDuplicatesFilter) :
  d !! "init_args" = Some (VDict kwargs) ->
  (forall v, kwargs !! "structure_matcher" = Some v -> exists dm, v = VDict dm) ->
  (forall v, kwargs !! "symprec" = Some v ->
             v = VNone \/ exists q, v = VNum q) ->
  from_dict (VDict d) = inr (ARemoveDuplicatesFilter r) ->
  _structure_list r = []
  /\ _symprec r = match kwargs !! "symprec" with
                  | Some (VNum q) => Some q
                  | _ => None
                  end.
Proof.
  intros Hargs Hmatcher Hsymprec.
  unfold from_dict, getitem, as_str, getattr, mbind, result_bind.
  destruct (d !! "@class") as [[| | |name| |]|]; try done.
  rewrite Hargs. repeat case_decide; try done.
  - unfold new_ContainsSpecieFilter, mbind, result_bind.
    case_bool_decide; [| done].
    destruct (kwargs !! "species") as [[| | | |l|]|]; try done.
    destruct (py_map _ l); [done |].
    by destruct (ContainsSpecieFilter_init _ _ _ _).
  - unfold new_SpecieProximityFilter, mbind, result_bind.
    case_bool_decide; [| done].
    destruct (kwargs !! "specie_and_min_dist_dict") as [[| | | | |d']|];
      try done.
    case_bool_decide; [| done].
    by destruct (SpecieProximityFilter_init _).
  - unfold new_RemoveDuplicatesFilter, RemoveDuplicatesFilter_init, mbind,
      mret, result_bind, result_ret.
    case_bool_decide; [| done].
    destruct (kwargs !! "structure_matcher") as [vm |];
      [destruct (Hmatcher vm eq_refl) as [dm ->] |];
      (destruct (kwargs !! "symprec") as [vs |];
       [destruct (Hsymprec vs eq_refl) as [-> | [q ->]] |]);
      try (destruct (sm_from_dict dm); [done |]);
      by intros [= <-].
  - unfold new_ChargeBalanceFilter. by case_bool_decide.
Qed.

(** *** ContainsSpecieFilter *)

(** X7. [exclude] inverts the filter: with the flag flipped, [test] returns
    the opposite on every structure. *)
Theorem ContainsSpecieFilter_test_exclude_inverts
    (species : list Specie) (strict AND exclude : bool)
    (structure : Structure) :
  ContainsSpecieFilter_test
    {| _species := species; _strict := strict; _AND := AND;
       _exclude := negb exclude |} structure
  = negb (ContainsSpecieFilter_test
            {| _species := species; _strict := strict; _AND := AND;
               _exclude := exclude |} structure).
Proof.
  unfold ContainsSpecieFilter_test, csf_decide. simpl.
  destruct strict, AND, exclude; simpl;
    repeat case_bool_decide; done.
Qed.

Lemma csf_decide_true `{Countable Key} (AND : bool) (F S : gset Key) :
  csf_decide AND false F S = true
  <-> if AND then F ⊆ S else F ∩ S <> ∅.
Proof.
  unfold csf_decide. destruct AND; simpl.
  - case_bool_decide; split; done.
  - case_bool_decide; split; done.
Qed.

(** X8. Comparing by atomic number accepts whatever the strict comparison
    accepts: a structure that passes a strict filter (without [exclude])
    passes the same filter with [strict_compare] off. *)
Theorem ContainsSpecieFilter_test_strict_implies_loose
    (species : list Specie) (AND : bool) (structure : Structure) :
  ContainsSpecieFilter_test
    {| _species := species; _strict := true; _AND := AND;
       _exclude := false |} structure = true ->
  ContainsSpecieFilter_test
    {| _species := species; _strict := false; _AND := AND;
       _exclude := false |} structure = true.
Proof.
  unfold ContainsSpecieFilter_test. simpl. rewrite !csf_decide_true.
  destruct AND.
  - intros Hsub z. rewrite !elem_of_list_to_set, !list_elem_of_fmap.
    intros (sp & -> & Hsp). exists sp. split; [done |].
    apply (elem_of_list_to_set (C := gset Specie)), Hsub.
    by apply elem_of_list_to_set.
  - intros Hne Hempty. apply Hne. apply set_eq. intros sp.
    split; [| by intros ?%not_elem_of_empty].
    intros [Ha Hb]%elem_of_intersection. exfalso.
    apply (not_elem_of_empty (C := gset nat) (specie_Z sp)).
    rewrite <- Hempty. apply elem_of_intersection.
    rewrite !elem_of_list_to_set, !list_elem_of_fmap.
    apply elem_of_list_to_set in Ha, Hb. split; by exists sp.
Qed.

(** X9. Only the set of configured species matters: two filters with the
    same flags whose species lists have the same elements, in any order and
    with any repetitions, return the same on every structure. *)
Theorem ContainsSpecieFilter_test_species_as_set
    (species species' : list Specie) (strict AND exclude : bool)
    (structure : Structure) :
  (forall sp, sp ∈ species <-> sp ∈ species') ->
  ContainsSpecieFilter_test
    {| _species := species; _strict := strict; _AND := AND;
       _exclude := exclude |} structure
  = ContainsSpecieFilter_test
      {| _species := species'; _strict := strict; _AND := AND;
         _exclude := exclude |} structure.
Proof.
  intros Hsame. unfold ContainsSpecieFilter_test. simpl.
  assert ((list_to_set species : gset Specie) = list_to_set species') as ->.
  { apply set_eq. intros sp. by rewrite !elem_of_list_to_set. }
  assert ((list_to_set (map specie_Z species) : gset nat)
          = list_to_set (map specie_Z species')) as ->; [| done].
  apply set_eq. intros z. rewrite !elem_of_list_to_set, !list_elem_of_fmap.
  split; intros (sp & -> & Hsp); exists sp; (split; [done |]);
    by apply Hsame.
Qed.

(** *** SpecieProximityFilter: construction *)

Lemma foldl_insert_lookup `{Countable K} {V} (l : list (K * V))
    (acc : gmap K V) (k : K) :
  (forall v, foldl (fun m kv => <[fst kv := snd kv]> m) acc l !! k = Some v ->
             (k, v) ∈ l \/ acc !! k = Some v)
  /\ (k ∉ l.*1 ->
      foldl (fun m kv => <[fst kv := snd kv]> m) acc l !! k = acc !! k)
  /\ (forall v, (k, v) ∈ l ->
                (forall v', (k, v') ∈ l -> v' = v) ->
                foldl (fun m kv => <[fst kv := snd kv]> m) acc l !! k
                = Some v)
  /\ (k ∈ l.*1 ->
      is_Some (foldl (fun m kv => <[fst kv := snd kv]> m) acc l !! k)).
Proof.
  revert acc. induction l as [|[k0 v0] l IH]; intros acc; simpl.
  - split; [by right |]. split; [done |].
    split; [by intros v ?%elem_of_nil | by intros ?%elem_of_nil].
  - destruct (IH (<[k0 := v0]> acc)) as (IH1 & IH2 & IH3 & IH4).
    split; [| split; [| split]].
    + intros v Hv. destruct (IH1 v Hv) as [Hin | Hacc].
      * left. by right.
      * destruct (decide (k0 = k)) as [-> | Hne].
        -- rewrite lookup_insert_eq in Hacc. injection Hacc as ->.
           left. by left.
        -- rewrite lookup_insert_ne in Hacc by done. by right.
    + intros Hnot. apply not_elem_of_cons in Hnot as [Hne Hnot].
      rewrite IH2 by done. by rewrite lookup_insert_ne.
    + intros v Hin Hfun. destruct (decide (k ∈ l.*1)) as [Hk | Hk].
      * apply list_elem_of_fmap in Hk as ([k' v'] & -> & Hin').
        simpl in *. rewrite (Hfun v') in Hin' by by right.
        apply IH3; [done |]. intros v'' Hv''. apply Hfun. by right.
      * rewrite IH2 by done.
        apply elem_of_cons in Hin as [[= -> ->] | Hin].
        -- by rewrite lookup_insert_eq.
        -- exfalso. apply Hk. apply list_elem_of_fmap. by exists (k, v).
    + intros Hin. destruct (decide (k ∈ l.*1)) as [Hk | Hk]; [by apply IH4 |].
      apply elem_of_cons in Hin as [-> | Hin]; [| done].
      rewrite IH2 by done. rewrite lookup_insert_eq. by eexists.
Qed.

(** The items of the constructor's argument with their keys resolved. *)
Definition resolved (items : list (string * Q)) : list (Specie * Q) :=
  omap (fun kv =>
          match smart_element_or_specie (fst kv) with
          | inl _ => None
          | inr sp => Some (sp, snd kv)
          end)
       items.

Lemma elem_of_resolved (items : list (string * Q)) (sp : Specie) (v : Q) :
  (sp, v) ∈ resolved items
  <-> exists k, (k, v) ∈ items /\ smart_element_or_specie k = inr sp.
Proof.
  unfold resolved. rewrite list_elem_of_omap. split.
  - intros ([k v'] & Hin & Hsome). simpl in Hsome.
    destruct (smart_element_or_specie k) as [e | sp'] eqn:E; [done |].
    injection Hsome as -> ->. by exists k.
  - intros (k & Hin & Hk). exists (k, v). split; [done |].
    simpl. by rewrite Hk.
Qed.

Lemma spf_comprehension_resolved (items : list (string * Q))
    (acc m : gmap Specie Q) :
  spf_comprehension items acc = inr m ->
  m = foldl (fun m kv => <[fst kv := snd kv]> m) acc (resolved items).
Proof.
  revert acc. induction items as [|[k v] items IH]; intros acc; simpl.
  - by intros [= ->].
  - unfold resolved. simpl.
    destruct (smart_element_or_specie k) as [e | sp]; [done |].
    intros Hm. by apply IH in Hm.
Qed.

Lemma spf_comprehension_all_parse (items : list (string * Q))
    (acc : gmap Specie Q) :
  Forall (fun kv => is_raise (smart_element_or_specie (fst kv)) = false)
         items ->
  exists m, spf_comprehension items acc = inr m.
Proof.
  revert acc. induction items as [|[k v] items IH]; intros acc Hall; simpl.
  - by eexists.
  - apply Forall_cons in Hall as [Hk Hall]. simpl in Hk.
    destruct (smart_element_or_specie k) as [e | sp]; [done |]. by apply IH.
Qed.

(** X10. A constructed [SpecieProximityFilter] holds given thresholds only:
    every stored minimum distance was given for a string that resolves to
    its species, and every given string has its species stored.  When no
    two given strings resolve to one species, each species holds exactly
    the threshold given for its string. *)
Theorem SpecieProximityFilter_init_stores_given_thresholds
    (d : gmap string Q) (f : SpecieProximityFilter) :
  SpecieProximityFilter_init d = inr f ->
  (forall sp v,
      specie_and_min_dist f !! sp = Some v ->
      exists k, d !! k = Some v /\ smart_element_or_specie k = inr sp)
  /\ (forall k v,
         d !! k = Some v ->
         exists sp, smart_element_or_specie k = inr sp
                    /\ is_Some (specie_and_min_dist f !! sp))
  /\ ((forall k k' sp,
          is_Some (d !! k) -> is_Some (d !! k') ->
          smart_element_or_specie k = inr sp ->
          smart_element_or_specie k' = inr sp -> k = k') ->
      forall k v sp,
        d !! k = Some v -> smart_element_or_specie k = inr sp ->
        specie_and_min_dist f !! sp = Some v).
Proof.
  unfold SpecieProximityFilter_init.
  destruct (spf_comprehension (map_to_list d) ∅) as [e | m] eqn:E; [done |].
  intros [= <-]. simpl.
  pose proof (spf_comprehension_ok _ _ _ E) as Hok.
  rewrite Forall_forall in Hok.
  apply spf_comprehension_resolved in E. subst m.
  split; [| split].
  - intros sp v Hv.
    destruct (foldl_insert_lookup (resolved (map_to_list d)) ∅ sp)
      as (H1 & _).
    destruct (H1 v Hv) as [Hin | Hempty]; [| by rewrite lookup_empty in Hempty].
    apply elem_of_resolved in Hin as (k & Hin & Hk).
    exists k. split; [by apply elem_of_map_to_list | done].
  - intros k v Hkv. apply elem_of_map_to_list in Hkv.
    pose proof (Hok _ Hkv) as Hparse. simpl in Hparse.
    destruct (smart_element_or_specie k) as [e | sp] eqn:Ek; [done |].
    exists sp. split; [done |].
    destruct (foldl_insert_lookup (resolved (map_to_list d)) ∅ sp)
      as (_ & _ & _ & H4).
    apply H4. apply list_elem_of_fmap. exists (sp, v).
    split; [done |]. apply elem_of_resolved. eauto.
  - intros Hinj k v sp Hkv Hk.
    destruct (foldl_insert_lookup (resolved (map_to_list d)) ∅ sp)
      as (_ & _ & H3 & _).
    apply H3.
    + apply elem_of_resolved. exists k.
      split; [by apply elem_of_map_to_list | done].
    + intros v' (k' & Hin' & Hk')%elem_of_resolved.
      apply elem_of_map_to_list in Hin'.
      assert (k' = k) as -> by (eapply Hinj; eauto).
      congruence.
Qed.

(** *** The dict form: round trips *)

Lemma from_dict_dispatch (d kwargs : gmap string value) (name : string)
    (trans : gmap string value -> result Filter) :
  d !! "@class" = Some (VStr name) ->
  getattr name = Some trans ->
  d !! "init_args" = Some (VDict kwargs) ->
  from_dict (VDict d) = trans kwargs.
Proof.
  intros Hclass Htrans Hargs.
  unfold from_dict, getitem, mbind, result_bind, as_str.
  by rewrite Hclass, Htrans, Hargs.
Qed.

Lemma py_map_as_str (f : Specie -> string) (l : list Specie) :
  py_map as_str (map (fun sp => VStr (f sp)) l) = inr (map f l).
Proof. induction l as [|sp l IH]; simpl; [done |]. by rewrite IH. Qed.

Lemma py_map_resolves (l : list Specie) :
  Forall (fun sp => smart_element_or_specie (specie_str sp) = inr sp) l ->
  py_map smart_element_or_specie (map specie_str l) = inr l.
Proof.
  induction 1 as [|sp l Hsp _ IH]; simpl; [done |]. by rewrite Hsp, IH.
Qed.

(** X11. A [ContainsSpecieFilter] survives the round trip through its dict
    form when the resolver reads back what [str] writes for each of its
    species: [from_dict] of [to_dict] is the filter itself, species, flags
    and all. *)
Theorem from_dict_to_dict_ContainsSpecieFilter (c : ContainsSpecieFilter) :
  Forall (fun sp => smart_element_or_specie (specie_str sp) = inr sp)
         (_species c) ->
  from_dict (to_dict (AContainsSpecieFilter c))
  = inr (AContainsSpecieFilter c).
Proof.
  destruct c as [species strict AND exclude].
  cbn [_species]. intros Hrt.
  unfold to_dict, ContainsSpecieFilter_to_dict.
  cbn [_species _strict _AND _exclude].
  erewrite from_dict_dispatch; [| reflexivity | reflexivity | reflexivity].
  unfold new_ContainsSpecieFilter.
  rewrite bool_decide_eq_true_2
    by (eapply bool_decide_eq_true_1; vm_compute; reflexivity).
  change (list_to_map _ !! "species")
    with (Some (VList (map (fun sp => VStr (specie_str sp)) species))).
  unfold mbind, result_bind. rewrite py_map_as_str.
  unfold ContainsSpecieFilter_init. rewrite (py_map_resolves species Hrt).
  reflexivity.
Qed.

(** X12. A [SpecieProximityFilter] survives the round trip through its
    dict form when the resolver reads back what [str] writes for each of
    its species: [from_dict] of [to_dict] is the filter itself, with every
    minimum distance. *)
Theorem from_dict_to_dict_SpecieProximityFilter (p : SpecieProximityFilter) :
  (forall sp, sp ∈ dom (specie_and_min_dist p) ->
              smart_element_or_specie (specie_str sp) = inr sp) ->
  from_dict (to_dict (ASpecieProximityFilter p))
  = inr (ASpecieProximityFilter p).
Proof.
  destruct p as [m]. cbn [specie_and_min_dist]. intros Hrt.
  unfold to_dict, SpecieProximityFilter_to_dict. cbn [specie_and_min_dist].
  set (items := map (fun '(sp, v) => (specie_str sp, VNum v)) (map_to_list m)).
  set (D := py_dict items).
  erewrite from_dict_dispatch; [| reflexivity | reflexivity | reflexivity].
  unfold new_SpecieProximityFilter.
  rewrite bool_decide_eq_true_2
    by (eapply bool_decide_eq_true_1; vm_compute; reflexivity).
  change (list_to_map _ !! "specie_and_min_dist_dict") with (Some (VDict D)).
  cbv beta iota.
  assert (Hitems : forall k x,
             (k, x) ∈ items
             <-> exists sp v, k = specie_str sp /\ x = VNum v
                              /\ m !! sp = Some v).
  { intros k x. unfold items. rewrite list_elem_of_fmap. split.
    - intros ([sp v] & [= -> ->] & Hin%elem_of_map_to_list). eauto.
    - intros (sp & v & -> & -> & Hm). exists (sp, v).
      split; [done | by apply elem_of_map_to_list]. }
  assert (Hinj : forall sp sp' v v',
             m !! sp = Some v -> m !! sp' = Some v' ->
             specie_str sp = specie_str sp' -> sp = sp').
  { intros sp sp' v v' Hsp Hsp' Hstr.
    assert (inr sp = inr sp' :> result Specie) as [= ->]; [| done].
    rewrite <- (Hrt sp), <- (Hrt sp'), Hstr; [done | |];
      apply elem_of_dom; eauto. }
  assert (HD : forall k x,
             D !! k = Some x
             <-> exists sp v, k = specie_str sp /\ x = VNum v
                              /\ m !! sp = Some v).
  { intros k x. unfold D, py_dict.
    destruct (foldl_insert_lookup items ∅ k) as (H1 & _ & H3 & _). split.
    - intros Hk. destruct (H1 x Hk) as [Hin | Hempty];
        [by apply Hitems | by rewrite lookup_empty in Hempty].
    - intros Hx. apply H3; [by apply Hitems |].
      intros x' (sp' & v' & Hk' & -> & Hm')%Hitems.
      destruct Hx as (sp & v & -> & -> & Hm).
      rewrite (Hinj sp sp' v v' Hm Hm' Hk') in Hm. congruence. }
  rewrite bool_decide_eq_true_2.
  2:{ intros k x (sp & v & _ & -> & _)%HD. by eexists. }
  set (d' := omap as_num D).
  assert (Hd' : forall k v,
             d' !! k = Some v
             <-> exists sp, k = specie_str sp /\ m !! sp = Some v).
  { intros k v. unfold d'. rewrite lookup_omap. split.
    - destruct (D !! k) as [x |] eqn:Ek; [| done]. simpl. intros Hx.
      apply HD in Ek as (sp & v' & -> & -> & Hm). injection Hx as <-. eauto.
    - intros (sp & -> & Hm).
      assert (D !! specie_str sp = Some (VNum v)) as ->; [| done].
      apply HD. eauto. }
  unfold mbind, result_bind, mret, result_ret, SpecieProximityFilter_init.
  destruct (spf_comprehension_all_parse (map_to_list d') ∅) as [m' Hm'].
  { apply Forall_forall. intros [k v] Hin%elem_of_map_to_list.
    apply Hd' in Hin as (sp & -> & Hm). simpl.
    rewrite (Hrt sp); [done |]. apply elem_of_dom. eauto. }
  rewrite Hm'. do 3 f_equal.
  apply spf_comprehension_resolved in Hm'. subst m'. apply map_eq. intros sp.
  destruct (foldl_insert_lookup (resolved (map_to_list d')) ∅ sp)
    as (H1 & _ & H3 & _).
  assert (Hres : forall v, (sp, v) ∈ resolved (map_to_list d')
                           -> m !! sp = Some v).
  { intros v (k & Hin%elem_of_map_to_list & Hk)%elem_of_resolved.
    apply Hd' in Hin as (sp' & -> & Hm).
    rewrite (Hrt sp') in Hk by (apply elem_of_dom; eauto).
    by injection Hk as ->. }
  destruct (m !! sp) as [v |] eqn:Em.
  - apply H3.
    + apply elem_of_resolved. exists (specie_str sp). split.
      * apply elem_of_map_to_list, Hd'. eauto.
      * apply Hrt, elem_of_dom. eauto.
    + intros v' Hv'%Hres. congruence.
  - destruct (foldl _ ∅ (resolved (map_to_list d')) !! sp) as [v |] eqn:E;
      [| done].
    destruct (H1 v eq_refl) as [Hin%Hres | Hempty]; [done |].
    by rewrite lookup_empty in Hempty.
Qed.

(** *** SpecieProximityFilter: the test *)

(** X13. A structure none of whose sites carries a configured species
    passes, whatever its geometry: an empty configuration and a structure
    without sites are the extreme cases. *)
Theorem SpecieProximityFilter_test_unconstrained
    (self : SpecieProximityFilter) (structure : Structure) :
  (forall site sp,
      site ∈ sites structure ->
      sp ∈ dom (species_and_occu site) ->
      specie_and_min_dist self !! sp = None) ->
  SpecieProximityFilter_test self structure = true.
Proof.
  intros Hfree. unfold SpecieProximityFilter_test.
  apply negb_true_iff, not_true_iff_false.
  intros (site & Hsite%list_elem_of_In & Hviol)%existsb_exists.
  unfold spf_site in Hviol.
  destruct (elements _) as [|sp0 sps] eqn:E; [done |].
  assert (sp0 ∈ elements (dom (species_and_occu site)
                          ∩ dom (specie_and_min_dist self))) as Hin
    by (rewrite E; by left).
  apply elem_of_elements, elem_of_intersection in Hin as [Hsp Hcfg].
  apply elem_of_dom in Hcfg as [v Hv].
  by rewrite (Hfree site sp0 Hsite Hsp) in Hv.
Qed.

(** X14. Raising minimum distances or constraining more species only
    rejects more: a structure that passes a filter passes every filter
    whose species are among the former's with no larger minimum
    distances. *)
Theorem SpecieProximityFilter_test_monotone
    (loose tight : SpecieProximityFilter) (structure : Structure) :
  complete_within_radius structure ->
  (forall sp v,
      specie_and_min_dist loose !! sp = Some v ->
      exists v', specie_and_min_dist tight !! sp = Some v' /\ (v <= v')%Q) ->
  SpecieProximityFilter_test tight structure = true ->
  SpecieProximityFilter_test loose structure = true.
Proof.
  intros Hnn Hle. unfold SpecieProximityFilter_test.
  rewrite !negb_true_iff, <- !not_true_iff_false. intros Htight Hloose.
  apply Htight. apply existsb_exists in Hloose as (site & Hsite & Hviol).
  apply existsb_exists. exists site. split; [done |].
  apply spf_site_true in Hviol; [| done]. apply spf_site_true; [done |].
  destruct Hviol as (sp & v & n & d & Hsp & Hv & Hn & Hnsp & Hlt).
  destruct (Hle sp v Hv) as (v' & Hv' & Hvv').
  exists sp, v', n, d. repeat split; try done.
  by apply Qlt_le_trans with v.
Qed.

(** *** RemoveDuplicatesFilter: the effect of [symprec] *)

Lemma cascade_true_without_symprec (self self0 : RemoveDuplicatesFilter)
    (structure s : Structure) :
  _sm self0 = _sm self -> _symprec self0 = None ->
  cascade self structure s = inr true ->
  cascade self0 structure s = inr true.
Proof.
  intros Hsm Hsp. unfold cascade, mbind, result_bind. rewrite Hsm, Hsp.
  destruct (get_structure_hash (_sm self) structure) as [e | h1]; [done |].
  destruct (get_structure_hash (_sm self) s) as [e | h2]; [done |].
  case_bool_decide; [| done].
  destruct (_symprec self) as [p |]; [| done].
  destruct (get_spacegroup_number s p) as [e | g1]; [done |].
  destruct (get_spacegroup_number structure p) as [e | g2]; [done |].
  by case_bool_decide.
Qed.

(** X15. Giving [symprec] never turns an acceptance into a rejection: on the
    same retained list and with the same matcher, a structure that the
    filter without [symprec] accepts is not rejected by the filter with
    [symprec] (its call returns true or raises). *)
Theorem RemoveDuplicatesFilter_symprec_only_accepts_more
    (w w0 : world) (structure : Structure) :
  _sm (this w0) = _sm (this w) ->
  _symprec (this w0) = None ->
  _structure_list (this w0) = _structure_list (this w) ->
  fst (RemoveDuplicatesFilter_test structure w0) = inr true ->
  fst (RemoveDuplicatesFilter_test structure w) <> inr false.
Proof.
  intros Hsm Hsp Hl.
  destruct (rdf_test_spec structure w0) as (log0 & -> & _).
  destruct (rdf_test_spec structure w) as (log & -> & _).
  simpl. unfold outcome. rewrite Hl.
  destruct (scan (this w0) structure (_structure_list (this w)))
    as [e | [|]] eqn:E0; [done | done |].
  intros _.
  destruct (scan (this w) structure (_structure_list (this w)))
    as [e | [|]] eqn:E; [done | | done].
  apply scan_true in E as (l1 & s & l2 & Hsplit & _ & Hc).
  apply scan_false in E0. rewrite Hsplit in E0.
  apply Forall_app in E0 as [_ E0]. apply Forall_cons in E0 as [E0 _].
  by rewrite (cascade_true_without_symprec (this w) (this w0)) in E0.
Qed.

(** *** ContainsSpecieFilter: more species *)

(** X16. Under AND, asking for more species only rejects more; under OR it
    only accepts more (both without [exclude]). *)
Theorem ContainsSpecieFilter_test_more_species
    (species more : list Specie) (strict : bool) (structure : Structure) :
  (ContainsSpecieFilter_test
     {| _species := species ++ more; _strict := strict; _AND := true;
        _exclude := false |} structure = true ->
   ContainsSpecieFilter_test
     {| _species := species; _strict := strict; _AND := true;
        _exclude := false |} structure = true)
  /\ (ContainsSpecieFilter_test
        {| _species := species; _strict := strict; _AND := false;
           _exclude := false |} structure = true ->
      ContainsSpecieFilter_test
        {| _species := species ++ more; _strict := strict; _AND := false;
           _exclude := false |} structure = true).
Proof.
  assert (Hand : forall `{Countable Key} (l l' : list Key) (S : gset Key),
             list_to_set (l ++ l') ⊆ S -> (list_to_set l : gset Key) ⊆ S).
  { intros Key ? ? l l' S Hsub x Hx. apply Hsub.
    rewrite list_to_set_app_L. apply elem_of_union. by left. }
  assert (Hor : forall `{Countable Key} (l l' : list Key) (S : gset Key),
             (list_to_set l : gset Key) ∩ S <> ∅ ->
             list_to_set (l ++ l') ∩ S <> ∅).
  { intros Key ? ? l l' S Hne Hempty. apply Hne. apply set_eq. intros x.
    split; [| by intros ?%not_elem_of_empty].
    intros [Ha Hb]%elem_of_intersection. rewrite <- Hempty.
    apply elem_of_intersection. split; [| done].
    rewrite list_to_set_app_L. apply elem_of_union. by left. }
  unfold ContainsSpecieFilter_test.
  destruct strict; simpl; rewrite !csf_decide_true, ?map_app; split; eauto.
Qed.

End Filters.

(** ** The filters on the concrete universe *)

Module Examples.
Import Fixture.

Abbreviation csf_test :=
  (ContainsSpecieFilter_test specie_Z composition_elements).
Abbreviation spf_test :=
  (SpecieProximityFilter_test species_and_occu sites get_neighbors).
Abbreviation rdf_test :=
  (RemoveDuplicatesFilter_test get_structure_hash fit get_spacegroup_number).
Abbreviation rdf_run :=
  (run_tests get_structure_hash fit get_spacegroup_number).
Abbreviation rdf_cascade :=
  (cascade get_structure_hash fit get_spacegroup_number).
Abbreviation filter_test_all :=
  (test_all specie_Z species_and_occu sites composition_elements charge
     get_neighbors get_structure_hash fit get_spacegroup_number).
Abbreviation filter_to_dict :=
  (to_dict (Structure := Structure) specie_str sm_to_dict).
Abbreviation filter_from_dict :=
  (from_dict (Structure := Structure) smart_element_or_specie sm_from_dict
     default_structure_matcher).

(** The configuration [{"Na+": 1.0}]. *)
Definition Na_plus_1 : SpecieProximityFilter (Specie := Specie) :=
  {| specie_and_min_dist := {[Na_plus := 1%Q]} |}.

(** A filter with the symmetry check switched on. *)
Definition with_symprec : RemoveDuplicatesFilter (Structure := Structure) :=
  {| _symprec := Some symprec; _structure_list := []; _sm := tt |}.

(** Sites that differ in their occupancies only. *)
Definition up_to_occupancy (s1 s2 : Site) : Prop :=
  fst s1 = fst s2 /\ (snd s1).*1 = (snd s2).*1.

(** *** ContainsSpecieFilter and ChargeBalanceFilter *)

Example ContainsSpecieFilter_Na :
  csf_test {| _species := [Na]; _strict := false; _AND := true;
              _exclude := false |} (two_Na 3 1) = true
  /\ csf_test {| _species := [Na]; _strict := true; _AND := true;
                 _exclude := false |} (two_Na 3 1) = false
  /\ csf_test {| _species := [K]; _strict := false; _AND := true;
                 _exclude := false |} (two_Na 3 1) = false.
Proof. vm_compute. done. Qed.

Example ChargeBalanceFilter_barely_charged :
  ChargeBalanceFilter_test charge neutral = true
  /\ ChargeBalanceFilter_test charge barely_charged = false.
Proof. vm_compute. done. Qed.

(** *** SpecieProximityFilter *)

Example SpecieProximityFilter_thresholds :
  spf_test Na_plus_1 (two_Na (1 # 2) 1) = false
  /\ spf_test Na_plus_1 (two_Na 1 1) = true
  /\ spf_test Na_plus_1 (two_Na (3 # 2) 1) = true.
Proof. vm_compute. done. Qed.

Lemma get_neighbors_complete (structure : Structure) :
  complete_within_radius get_neighbors structure.
Proof.
  intros site r r' n d Hin Hlt. unfold get_neighbors in *.
  apply list_elem_of_omap in Hin as ([[i n'] d'] & Hin & Hsome).
  apply list_elem_of_omap. exists (i, n', d'). split; [done |].
  destruct (decide (i = site.1)); [| done].
  destruct (Qle_bool d' r); [| done]. injection Hsome as -> ->.
  assert (Qle_bool d r' = true) as ->; [| done].
  by apply Qle_bool_iff, Qlt_le_weak.
Qed.

(** Witness of C2: two [Na+] sites half an angstrom apart, under
    [{"Na+": 1.0}]. *)
Lemma SpecieProximityFilter_test_strict_witness :
  (spf_test Na_plus_1 (two_Na (1 # 2) 1) = false
   <-> exists site,
         site ∈ sites (two_Na (1 # 2) 1)
         /\ violation species_and_occu get_neighbors Na_plus_1
              (two_Na (1 # 2) 1) site)
  /\ (spf_test Na_plus_1 (two_Na (1 # 2) 1) = true
      <-> forall site sp v n d,
            site ∈ sites (two_Na (1 # 2) 1) ->
            sp ∈ dom (species_and_occu site) ->
            specie_and_min_dist Na_plus_1 !! sp = Some v ->
            periodic_neighbor get_neighbors (two_Na (1 # 2) 1) site n d ->
            sp ∈ dom (species_and_occu n) ->
            (v <= d)%Q).
Proof.
  apply (SpecieProximityFilter_test_strict species_and_occu sites
           get_neighbors Na_plus_1 (two_Na (1 # 2) 1)).
  apply get_neighbors_complete.
Defined.

Lemma up_to_occupancy_same_species (s1 s2 : Site) :
  up_to_occupancy s1 s2 -> same_species species_and_occu s1 s2.
Proof.
  intros [_ Hkeys]. unfold same_species, species_and_occu.
  by rewrite !dom_list_to_map_L, Hkeys.
Qed.

Lemma two_Na_same_neighbors (d o1 o2 : Q) (s1 s2 : Site) (r : Q) :
  up_to_occupancy s1 s2 ->
  same_neighbors up_to_occupancy (get_neighbors (two_Na d o1) s1 r)
                                 (get_neighbors (two_Na d o2) s2 r).
Proof.
  destruct s1 as [i1 l1], s2 as [i2 l2]. intros [Hi _]. simpl in Hi.
  subst i2. unfold get_neighbors, same_neighbors. simpl.
  repeat case_decide; destruct (Qle_bool d r);
    repeat constructor; done.
Qed.

(** Witness of C10: the same two sites with full and with half
    occupancy. *)
Lemma SpecieProximityFilter_test_occupancy_insensitive_witness :
  spf_test Na_plus_1 (two_Na (1 # 2) 1)
  = spf_test Na_plus_1 (two_Na (1 # 2) (1 # 2)).
Proof.
  apply (SpecieProximityFilter_test_occupancy_insensitive species_and_occu
           sites get_neighbors Na_plus_1 up_to_occupancy).
  - apply up_to_occupancy_same_species.
  - repeat constructor.
  - intros s1 s2 r. apply two_Na_same_neighbors.
Defined.

(** *** RemoveDuplicatesFilter *)

(** Witness of C1: [A], its copy and [C], with the symmetry check on. *)
Lemma RemoveDuplicatesFilter_test_twice_and_equivalent_witness :
  (fst (rdf_run [A; A] (fresh tt (Some symprec))) = [inr true; inr false]
   /\ _structure_list (this (snd (rdf_run [A; A] (fresh tt (Some symprec)))))
      = [A])
  /\ (fst (rdf_run [A; A_copy; C] (fresh tt (Some symprec)))
      = [inr true; inr false; inr true]
      /\ _structure_list
           (this (snd (rdf_run [A; A_copy; C] (fresh tt (Some symprec)))))
         = [A; C]).
Proof.
  destruct (RemoveDuplicatesFilter_test_twice_and_equivalent
              get_structure_hash fit get_spacegroup_number tt (Some symprec))
    as [Htwice Hthree].
  split.
  - apply (Htwice A 1).
    + reflexivity.
    + intros p _. by exists 225.
    + reflexivity.
  - apply (Hthree A A_copy C 1 1).
    + reflexivity.
    + reflexivity.
    + reflexivity.
    + intros p _. exists 225, 225. repeat split.
    + reflexivity.
    + reflexivity.
Defined.

(** Counterexample to C1 as stated: with the symmetry check on, a distorted
    copy that the matcher fits onto [A] but whose space group differs is
    accepted after [A]. *)
Lemma RemoveDuplicatesFilter_accepts_fitting_distorted_copy :
  get_structure_hash tt A = get_structure_hash tt A_distorted
  /\ fit tt A A_distorted = inr true
  /\ fit tt A C = inr false
  /\ fit tt A_distorted C = inr false
  /\ fst (rdf_run [A; A_distorted; C] (fresh tt (Some symprec)))
     = [inr true; inr true; inr true]
  /\ _structure_list
       (this (snd (rdf_run [A; A_distorted; C] (fresh tt (Some symprec)))))
     = [A; A_distorted; C].
Proof. vm_compute. done. Qed.

(** Witness of C4: without the symmetry check, [C] is retained after [A]
    and does not fit it. *)
Lemma RemoveDuplicatesFilter_retained_pairwise_distinct_witness :
  rdf_cascade
    (this (snd (rdf_run [A; A_distorted; C] (fresh tt None)))) C A
  = inr false
  /\ (@None Q = None ->
      (forall x y, fit tt x y = inr true ->
                   get_structure_hash tt x = get_structure_hash tt y) ->
      fit tt A C <> inr true).
Proof.
  apply (RemoveDuplicatesFilter_retained_pairwise_distinct get_structure_hash
           fit get_spacegroup_number tt None [A; A_distorted; C] 0 1 A C).
  - lia.
  - reflexivity.
  - reflexivity.
Defined.

(** The hypothesis on the matcher in C4 holds of the matcher of the
    universe. *)
Example fit_implies_equal_hashes (x y : Structure) :
  fit tt x y = inr true -> get_structure_hash tt x = get_structure_hash tt y.
Proof.
  unfold fit, get_structure_hash.
  destruct (well_formed x), (well_formed y); simpl; try done.
  intros [= Hb]. apply andb_true_iff in Hb as [Hf%bool_decide_eq_true _].
  by rewrite Hf.
Qed.

(** Counterexample to C4 as stated: with the symmetry check on, the
    retained list holds two structures that fit each other. *)
Lemma RemoveDuplicatesFilter_retains_fitting_pair :
  _structure_list
    (this (snd (rdf_run [A; A_distorted] (fresh tt (Some symprec)))))
  = [A; A_distorted]
  /\ fit tt A A_distorted = inr true
  /\ fit tt A_distorted A = inr true.
Proof. vm_compute. done. Qed.

(** A collaborator that raises: the exception reaches the caller and [A]
    stays the only retained structure. *)
Example RemoveDuplicatesFilter_test_malformed :
  let w := snd (rdf_run [A] (fresh tt (Some symprec))) in
  fst (rdf_test malformed w) = inl (CollaboratorError 1)
  /\ this (snd (rdf_test malformed w)) = this w.
Proof. vm_compute. done. Qed.

(** A structure of another formula: its hash differs from the hash of the
    retained [A], and no call of [fit] is made. *)
Example RemoveDuplicatesFilter_test_other_formula :
  let w := snd (rdf_run [A] (fresh tt (Some symprec))) in
  fst (rdf_test neutral w) = inr true
  /\ calls (snd (rdf_test neutral w))
     = [Call_get_structure_hash A; Call_get_structure_hash neutral].
Proof. vm_compute. done. Qed.

(** *** Construction and the dict form *)

(** Counterexample to C7 as stated: a negative and a zero minimum distance
    are accepted by the constructor. *)
Lemma SpecieProximityFilter_init_accepts_non_positive :
  SpecieProximityFilter_init smart_element_or_specie
    {["Na+" := (-1)%Q; "Cl-" := 0%Q]}
  = inr {| specie_and_min_dist := {[Na_plus := (-1)%Q; Cl_minus := 0%Q]} |}.
Proof. vm_compute. reflexivity. Qed.

Example init_unparseable :
  ContainsSpecieFilter_init smart_element_or_specie ["Na"; "Xx"] false true
    false
  = inl (ValueError "Can't parse Element or String from str")
  /\ SpecieProximityFilter_init smart_element_or_specie {["Xx" := 1%Q]}
     = inl (ValueError "Can't parse Element or String from str").
Proof. vm_compute. done. Qed.

Example round_trip_of_the_stateless_filters :
  filter_from_dict (filter_to_dict (ASpecieProximityFilter Na_plus_1))
  = inr (ASpecieProximityFilter Na_plus_1)
  /\ filter_from_dict
       (filter_to_dict
          (AContainsSpecieFilter
             {| _species := [Na; Cl_minus]; _strict := true; _AND := false;
                _exclude := true |}))
     = inr (AContainsSpecieFilter
              {| _species := [Na; Cl_minus]; _strict := true; _AND := false;
                 _exclude := true |}).
Proof. vm_compute. done. Qed.

(** C8 on the code.  [RemoveDuplicatesFilter.to_dict] does not write
    [symprec]: the filter rebuilt by [from_dict] has none, and rejects the
    distorted copy of [A] that the original accepts.
    [ChargeBalanceFilter.to_dict] writes no ["init_args"], which [from_dict]
    reads: the round trip raises [KeyError]. *)
Theorem round_trip_changes_RemoveDuplicatesFilter :
  filter_from_dict (filter_to_dict (ARemoveDuplicatesFilter with_symprec))
  = inr (ARemoveDuplicatesFilter
           {| _symprec := None; _structure_list := []; _sm := tt |})
  /\ fst (filter_test_all (ARemoveDuplicatesFilter with_symprec)
            [A; A_distorted])
     = [inr true; inr true]
  /\ fst (filter_test_all
            (ARemoveDuplicatesFilter
               {| _symprec := None; _structure_list := []; _sm := tt |})
            [A; A_distorted])
     = [inr true; inr false]
  /\ filter_from_dict (filter_to_dict AChargeBalanceFilter)
     = inl (KeyError "init_args").
Proof. vm_compute. done. Qed.

(** *** Witnesses of the further properties *)

(** A filter that retains [C] only, without and with the symmetry check, and
    one that retains [A]. *)
Definition retains_C : world (Structure := Structure) :=
  snd (rdf_run [C] (fresh tt None)).

Definition retains_A (symprec : option Q) : world (Structure := Structure) :=
  {| this := {| _symprec := symprec; _structure_list := [A]; _sm := tt |};
     calls := [] |}.

(** Two [Cl-] sites a tenth of an angstrom apart. *)
Definition two_Cl : Structure :=
  {| sites := [(0, [(Cl_minus, 1%Q)]); (1, [(Cl_minus, 1%Q)])];
     neighbors := [(0, (1, [(Cl_minus, 1%Q)]), 1 # 10);
                   (1, (0, [(Cl_minus, 1%Q)]), 1 # 10)];
     charge := (-2)%Q; formula := 3; spacegroup := 225; geometry := 1;
     well_formed := true |}.

(** Witness of X1: the malformed structure is accepted first. *)
Lemma RemoveDuplicatesFilter_test_first_call_witness :
  rdf_test malformed (fresh tt (Some symprec))
  = (inr true,
     {| this := retain (this (fresh tt (Some symprec))) malformed;
        calls := [] |}).
Proof.
  apply (RemoveDuplicatesFilter_test_first_call get_structure_hash fit
           get_spacegroup_number malformed (fresh tt (Some symprec))).
  reflexivity.
Defined.

(** Witness of X3: [A], tested twice on a filter that retains [C]. *)
Lemma RemoveDuplicatesFilter_test_again_rejects_witness :
  fst (rdf_test A (snd (rdf_test A retains_C))) = inr false.
Proof.
  apply (RemoveDuplicatesFilter_test_again_rejects get_structure_hash fit
           get_spacegroup_number A retains_C).
  - reflexivity.
  - reflexivity.
Defined.

(** Witness of X4. *)
Lemma RemoveDuplicatesFilter_test_no_symmetry_without_symprec_witness :
  exists log,
    calls (snd (rdf_test A retains_C)) = log ++ calls retains_C
    /\ forall s, Call_get_spacegroup_number s ∉ log.
Proof.
  apply (RemoveDuplicatesFilter_test_no_symmetry_without_symprec
           get_structure_hash fit get_spacegroup_number A retains_C).
  reflexivity.
Defined.

(** Witness of X5: a dict that gives a matcher and a [symprec]. *)
Lemma from_dict_RemoveDuplicatesFilter_retains_nothing_witness :
  _structure_list (this (fresh (Structure := Structure) tt (Some symprec)))
  = []
  /\ _symprec (this (fresh (Structure := Structure) tt (Some symprec)))
     = Some symprec.
Proof.
  destruct (from_dict_RemoveDuplicatesFilter_retains_nothing
              (Structure := Structure)
              smart_element_or_specie sm_from_dict default_structure_matcher
              {["@class" := VStr "RemoveDuplicatesFilter";
                "init_args" :=
                  VDict {["structure_matcher" := sm_to_dict tt;
                          "symprec" := VNum symprec]}]}
              {["structure_matcher" := sm_to_dict tt;
                "symprec" := VNum symprec]}
              (this (fresh tt (Some symprec)))) as [Hlist Hsymprec].
  - reflexivity.
  - intros v Hv. vm_compute in Hv. injection Hv as <-. by eexists.
  - intros v Hv. vm_compute in Hv. injection Hv as <-. right. by eexists.
  - vm_compute. reflexivity.
  - split; [exact Hlist |]. vm_compute in Hsymprec. exact Hsymprec.
Defined.

(** Witness of X8: [Na+] is found strictly, hence by atomic number. *)
Lemma ContainsSpecieFilter_test_strict_implies_loose_witness :
  csf_test {| _species := [Na_plus]; _strict := false; _AND := true;
              _exclude := false |} (two_Na 3 1) = true.
Proof.
  apply (ContainsSpecieFilter_test_strict_implies_loose specie_Z
           composition_elements [Na_plus] true (two_Na 3 1)).
  vm_compute. reflexivity.
Defined.

(** Witness of X9: a repeated species. *)
Lemma ContainsSpecieFilter_test_species_as_set_witness :
  csf_test {| _species := [Na; K; Na]; _strict := true; _AND := false;
              _exclude := true |} (two_Na 3 1)
  = csf_test {| _species := [K; Na]; _strict := true; _AND := false;
                _exclude := true |} (two_Na 3 1).
Proof.
  apply (ContainsSpecieFilter_test_species_as_set specie_Z
           composition_elements [Na; K; Na] [K; Na] true false true
           (two_Na 3 1)).
  intros sp. rewrite !elem_of_cons. tauto.
Defined.

(** Witness of X10: [{"Na+": 1, "Cl-": 2}]. *)
Lemma SpecieProximityFilter_init_stores_given_thresholds_witness :
  let d : gmap string Q := {["Na+" := 1%Q; "Cl-" := 2%Q]} in
  let f : SpecieProximityFilter (Specie := Specie) :=
    {| specie_and_min_dist := {[Na_plus := 1%Q; Cl_minus := 2%Q]} |} in
  (forall sp v,
      specie_and_min_dist f !! sp = Some v ->
      exists k, d !! k = Some v /\ smart_element_or_specie k = inr sp)
  /\ (forall k v,
         d !! k = Some v ->
         exists sp, smart_element_or_specie k = inr sp
                    /\ is_Some (specie_and_min_dist f !! sp))
  /\ ((forall k k' sp,
          is_Some (d !! k) -> is_Some (d !! k') ->
          smart_element_or_specie k = inr sp ->
          smart_element_or_specie k' = inr sp -> k = k') ->
      forall k v sp,
        d !! k = Some v -> smart_element_or_specie k = inr sp ->
        specie_and_min_dist f !! sp = Some v).
Proof.
  apply (SpecieProximityFilter_init_stores_given_thresholds
           smart_element_or_specie {["Na+" := 1%Q; "Cl-" := 2%Q]}).
  vm_compute. reflexivity.
Defined.

(** Witness of X11. *)
Lemma from_dict_to_dict_ContainsSpecieFilter_witness :
  filter_from_dict
    (filter_to_dict
       (AContainsSpecieFilter
          {| _species := [Na; Cl_minus]; _strict := true; _AND := false;
             _exclude := true |}))
  = inr (AContainsSpecieFilter
           {| _species := [Na; Cl_minus]; _strict := true; _AND := false;
              _exclude := true |}).
Proof.
  apply (from_dict_to_dict_ContainsSpecieFilter smart_element_or_specie
           specie_str sm_to_dict sm_from_dict default_structure_matcher).
  repeat constructor.
Defined.

(** Witness of X12. *)
Lemma from_dict_to_dict_SpecieProximityFilter_witness :
  filter_from_dict (filter_to_dict (ASpecieProximityFilter Na_plus_1))
  = inr (ASpecieProximityFilter Na_plus_1).
Proof.
  apply (from_dict_to_dict_SpecieProximityFilter smart_element_or_specie
           specie_str sm_to_dict sm_from_dict default_structure_matcher).
  intros sp Hsp. unfold Na_plus_1 in Hsp. simpl in Hsp.
  rewrite dom_singleton_L in Hsp. apply elem_of_singleton in Hsp.
  subst sp. reflexivity.
Defined.

(** Witness of X13: chlorides under [{"Na+": 1.0}], however close. *)
Lemma SpecieProximityFilter_test_unconstrained_witness :
  spf_test Na_plus_1 two_Cl = true.
Proof.
  apply (SpecieProximityFilter_test_unconstrained species_and_occu sites
           get_neighbors Na_plus_1 two_Cl).
  intros site sp Hsite Hsp.
  assert (sp = Cl_minus) as ->; [| reflexivity].
  unfold two_Cl in Hsite. simpl in Hsite.
  apply elem_of_cons in Hsite as [-> | Hsite];
    [| apply elem_of_cons in Hsite as [-> | Hsite];
       [| by apply elem_of_nil in Hsite]];
    unfold species_and_occu in Hsp; simpl in Hsp;
    rewrite dom_insert_L, dom_empty_L in Hsp;
    apply elem_of_union in Hsp as [Hsp%elem_of_singleton | Hsp];
    done.
Defined.

(** Witness of X14: one angstrom is looser than two. *)
Lemma SpecieProximityFilter_test_monotone_witness :
  spf_test Na_plus_1 (two_Na 3 1) = true.
Proof.
  apply (SpecieProximityFilter_test_monotone species_and_occu sites
           get_neighbors Na_plus_1
           {| specie_and_min_dist := {[Na_plus := 2%Q]} |} (two_Na 3 1)).
  - apply get_neighbors_complete.
  - intros sp v Hv. unfold Na_plus_1 in Hv. simpl in Hv.
    apply lookup_singleton_Some in Hv as [<- <-].
    exists 2%Q. split; [reflexivity | unfold Qle; simpl; lia].
  - vm_compute. reflexivity.
Defined.

(** Witness of X15: [C] after [A]. *)
Lemma RemoveDuplicatesFilter_symprec_only_accepts_more_witness :
  fst (rdf_test C (retains_A (Some symprec))) <> inr false.
Proof.
  apply (RemoveDuplicatesFilter_symprec_only_accepts_more get_structure_hash
           fit get_spacegroup_number (retains_A (Some symprec))
           (retains_A None) C).
  - reflexivity.
  - reflexivity.
  - reflexivity.
  - reflexivity.
Defined.

(** Witness of X17: a filter with [symprec] that retains [A]. *)
Lemma from_dict_to_dict_RemoveDuplicatesFilter_witness :
  filter_from_dict
    (filter_to_dict
       (ARemoveDuplicatesFilter (this (retains_A (Some symprec)))))
  = inr (ARemoveDuplicatesFilter
           {| _symprec := None; _structure_list := []; _sm := tt |}).
Proof.
  apply (from_dict_to_dict_RemoveDuplicatesFilter smart_element_or_specie
           specie_str sm_to_dict sm_from_dict default_structure_matcher
           (this (retains_A (Some symprec)))
           {["@class" := VStr "StructureMatcher"]}).
  - reflexivity.
  - reflexivity.
Defined.

End Examples.
